(** * guid-generate: the seed expansion, the generator and the formatter

    A shallow embedding of [src/main.cc]: [arith::rotl], the [mkseed]
    lambda and [generate_guid], and [to_string].

    Conventions.
    - An unsigned integer of [n] bits is a [Z] in [[0, 2^n)]; arithmetic
      that can leave the range is followed by [wrap].
    - A shift whose count is negative or not below the width of the shifted
      type is undefined in C++.  Shifts are therefore run in the [Shifted]
      monad, which logs every shift count and yields [None] from the first
      undefined shift on.
    - [std::random_device] is the only effect that leaves the function; it
      is modelled by a [World] that holds the values still to be drawn and
      counts the draws made.  A [World] describes the runs in which every
      draw succeeds; a [Device], whose draws may throw, adds the failure
      exit. *)

From Stdlib Require Import ZArith Lia List String Ascii.
From stdpp Require Import base option list.

Local Open Scope Z_scope.

(** ** Unsigned machine integers *)

Definition wrap (bits v : Z) : Z := v mod 2 ^ bits.

Definition in_range (bits v : Z) : Prop := 0 <= v < 2 ^ bits.

(** ** Logged, checked shifts *)

(** The shift counts performed so far, and the value computed unless one of
    the shifts was undefined. *)
Definition Shifted (A : Type) : Type := (list Z * option A)%type.

#[global] Instance Shifted_ret : MRet Shifted := fun A a => ([], Some a).

#[global] Instance Shifted_bind : MBind Shifted := fun A B f m =>
  match m.2 with
  | Some a => (m.1 ++ (f a).1, (f a).2)
  | None => (m.1, None)
  end.

Definition shift_defined (bits k : Z) : bool := (0 <=? k) && (k <? bits).

(** [x << k] on an unsigned type of [bits] bits. *)
Definition shl (bits x k : Z) : Shifted Z :=
  ([k], if shift_defined bits k then Some (wrap bits (Z.shiftl x k)) else None).

(** [x >> k] on an unsigned type of [bits] bits. *)
Definition shr (bits x k : Z) : Shifted Z :=
  ([k], if shift_defined bits k then Some (Z.shiftr x k) else None).

(** ** [arith::rotl] *)

Module arith.

Section rotl.
(** [sizeof(T)] of the unsigned type [T] the template is used at. *)
Variable sizeof_T : Z.

Definition N : Z := sizeof_T * 8.

(** [s] is an [int]; [%] on [int] truncates towards zero ([Z.rem]). *)
Definition rotl (x s : Z) : Shifted Z :=
  let r := Z.rem s N in
  if r =? 0 then mret x
  else if r >? 0 then
    a ← shl N x r;
    b ← shr N x (Z.rem (N - r) N);
    mret (Z.lor a b)
  else
    a ← shr N x (- r);
    b ← shl N x (Z.rem (N + r) N);
    mret (Z.lor a b).
End rotl.

End arith.

(** ** The environment: [std::random_device] *)

(** [rd_stream w k] is the value the [k]-th draw of the run returns and
    [rd_reads w] the number of draws made so far. *)
Record World : Type := mkWorld { rd_stream : nat → Z; rd_reads : nat }.

(** A computation that may draw from the environment; [None] stands for
    undefined behaviour. *)
Definition M (A : Type) : Type := World → option (A * World).

#[global] Instance M_ret : MRet M := fun A a w => Some (a, w).

#[global] Instance M_bind : MBind M := fun A B f m w =>
  match m w with
  | Some (a, w') => f a w'
  | None => None
  end.

Definition of_option {A : Type} (o : option A) : M A :=
  fun w => match o with Some a => Some (a, w) | None => None end.

(** Runs logged shifts inside [M]; the log is dropped. *)
Definition of_shifted {A : Type} (m : Shifted A) : M A := of_option m.2.

(** [random_device()()]: one [unsigned int] (32 bits) from the environment. *)
Definition random_device : M Z :=
  fun w => Some (wrap 32 (rd_stream w (rd_reads w)),
                 mkWorld (rd_stream w) (S (rd_reads w))).

(** ** The engine interface: [std::mt19937] as [generate_guid] uses it *)

Class RandomEngine (E : Type) : Type := {
  (** [mt19937::default_seed] *)
  default_seed : Z;
  (** [mt19937(value)] *)
  construct : Z → E;
  (** [operator()]: the value drawn and the advanced engine *)
  invoke : E → Z * E
}.

(** The [n]-th value an engine yields, counted from 0, and the engine after
    [n] draws. *)
Fixpoint advance {E : Type} `{RandomEngine E} (n : nat) (e : E) : E :=
  match n with
  | O => e
  | S n' => advance n' (invoke e).2
  end.

Definition nth_draw {E : Type} `{RandomEngine E} (n : nat) (e : E) : Z :=
  (invoke (advance n e)).1.

(** ** [std::array] access and [std::accumulate] *)

(** [a[k]] read; an index outside the array is undefined. *)
Definition array_at {A : Type} (a : list A) (k : Z) : option A :=
  if 0 <=? k then a !! Z.to_nat k else None.

(** [a[k] = v] *)
Definition array_assign {A : Type} (a : list A) (k : Z) (v : A) : option (list A) :=
  _ ← array_at a k; Some (<[Z.to_nat k := v]> a).

(** [a[k]()] on an array of engines: the value drawn and the array with
    engine [k] advanced. *)
Definition array_invoke {E : Type} `{RandomEngine E} (a : list E) (k : Z)
  : option (Z * list E) :=
  e ← array_at a k;
  Some ((invoke e).1, <[Z.to_nat k := (invoke e).2]> a).

Fixpoint accumulate {A B : Type} (l : list B) (init : A) (op : A → B → Shifted A)
  : Shifted A :=
  match l with
  | [] => mret init
  | b :: l' => acc ← op init b; accumulate l' acc op
  end.

(** ** [generate_guid] *)

Definition SEED_OFFSET : Z := 0x271d8a39.

(** The value of a [char] holding the byte [c]: [std::string] has [char]
    elements, and [char] is a signed type on some platforms. *)
Definition char_value (char_is_signed : bool) (c : ascii) : Z :=
  let v := Z.of_N (N_of_ascii c) in
  if char_is_signed && (128 <=? v) then v - 256 else v.

Section generate_guid.
(** [sizeof(seed_type)], where [seed_type] is the type of
    [mt19937::default_seed] (an unsigned type, [uint_fast32_t]). *)
Variable sizeof_seed_type : Z.
Variable char_is_signed : bool.
Context {E : Type} `{RandomEngine E}.

Definition seed_bits : Z := arith.N sizeof_seed_type.

(** Conversion to [seed_type]. *)
Definition seed_type (v : Z) : Z := wrap seed_bits v.

(** The body of the lambda handed to [accumulate]. *)
Definition mkseed_step (rot : Z) (acc : Z) (b : ascii) : Shifted Z :=
  a ← shl seed_bits acc 8;
  arith.rotl sizeof_seed_type
    (Z.lxor acc (Z.lor a (seed_type (char_value char_is_signed b)))) rot.

Definition mkseed (seed : list ascii) (ofs : Z) (rot : Z) : M Z :=
  match seed with
  | [] =>
      v ← random_device;
      of_shifted (arith.rotl sizeof_seed_type (seed_type v) rot)
  | _ :: _ =>
      of_shifted (accumulate seed (seed_type ofs) (mkseed_step rot))
  end.

(** The loop [for(auto& e:data) e = value_type(mt[(++i) & 0x3]())]. *)
Fixpoint fill (data : list Z) (mt : list E) (i : Z)
  : option (list Z * list E * Z) :=
  match data with
  | [] => Some ([], mt, i)
  | _ :: rest =>
      let i := i + 1 in
      '(v, mt) ← array_invoke mt (Z.land i 0x3);
      '(rest, mt, i) ← fill rest mt i;
      Some (wrap 8 v :: rest, mt, i)
  end.

Definition generate_guid (seed : list ascii) : M (list Z) :=
  let mt := replicate 4 (construct default_seed) in
  s ← mkseed seed SEED_OFFSET 0;
  mt ← of_option (array_assign mt 0 (construct s));
  '(o, mt) ← of_option (array_invoke mt 0);
  s ← mkseed seed o 7;
  mt ← of_option (array_assign mt 1 (construct s));
  '(o, mt) ← of_option (array_invoke mt 1);
  s ← mkseed seed o 11;
  mt ← of_option (array_assign mt 2 (construct s));
  '(o, mt) ← of_option (array_invoke mt 2);
  s ← mkseed seed o 13;
  mt ← of_option (array_assign mt 3 (construct s));
  let data := replicate 16 0 in
  '(data, _, _) ← of_option (fill data mt 0);
  mret data.

End generate_guid.

(** ** The same code with the failure exit of [std::random_device]

    [mkseed] and [generate_guid] above describe the runs in which every
    draw from [std::random_device] succeeds.  Its constructor and its call
    may throw, and nothing in [generate_guid] catches: here a draw may fail,
    and the exception leaves the function. *)

(** [dev_stream d k] is what the [k]-th draw returns, [None] when it
    throws. *)
Record Device : Type := mkDevice { dev_stream : nat → option Z; dev_reads : nat }.

Inductive Result (A : Type) : Type :=
| Returned (a : A) (dev : Device)
| Thrown
| Undefined.

Arguments Returned {A} a dev.
Arguments Thrown {A}.
Arguments Undefined {A}.

Definition X (A : Type) : Type := Device → Result A.

#[global] Instance X_ret : MRet X := fun A a dev => Returned a dev.

#[global] Instance X_bind : MBind X := fun A B f m dev =>
  match m dev with
  | Returned a dev' => f a dev'
  | Thrown => Thrown
  | Undefined => Undefined
  end.

Definition or_undefined {A : Type} (o : option A) : X A :=
  fun dev => match o with Some a => Returned a dev | None => Undefined end.

Definition random_device_throwing : X Z :=
  fun dev =>
    match dev_stream dev (dev_reads dev) with
    | Some v => Returned (wrap 32 v) (mkDevice (dev_stream dev) (S (dev_reads dev)))
    | None => Thrown
    end.

Section generate_guid_throwing.
Variable sizeof_seed_type : Z.
Variable char_is_signed : bool.
Context {E : Type} `{RandomEngine E}.

Definition mkseed_throwing (seed : list ascii) (ofs : Z) (rot : Z) : X Z :=
  match seed with
  | [] =>
      v ← random_device_throwing;
      or_undefined (arith.rotl sizeof_seed_type (seed_type sizeof_seed_type v) rot).2
  | _ :: _ =>
      or_undefined
        (accumulate seed (seed_type sizeof_seed_type ofs)
           (mkseed_step sizeof_seed_type char_is_signed rot)).2
  end.

Definition generate_guid_throwing (seed : list ascii) : X (list Z) :=
  let mt := replicate 4 (construct default_seed) in
  s ← mkseed_throwing seed SEED_OFFSET 0;
  mt ← or_undefined (array_assign mt 0 (construct s));
  '(o, mt) ← or_undefined (array_invoke mt 0);
  s ← mkseed_throwing seed o 7;
  mt ← or_undefined (array_assign mt 1 (construct s));
  '(o, mt) ← or_undefined (array_invoke mt 1);
  s ← mkseed_throwing seed o 11;
  mt ← or_undefined (array_assign mt 2 (construct s));
  '(o, mt) ← or_undefined (array_invoke mt 2);
  s ← mkseed_throwing seed o 13;
  mt ← or_undefined (array_assign mt 3 (construct s));
  let data := replicate 16 0 in
  '(data, _, _) ← or_undefined (fill data mt 0);
  mret data.
End generate_guid_throwing.

(** The device that never throws and returns what the environment [w]
    holds. *)
Definition device_of (w : World) : Device :=
  mkDevice (λ k, Some (rd_stream w k)) (rd_reads w).

(** ** [std::mt19937], after the C++ standard's definition

    [mersenne_twister_engine<uint_fast32_t, 32, 624, 397, 31, 0x9908b0df, 11,
    0xffffffff, 7, 0x9d2c5680, 15, 0xefc60000, 18, 1812433253>].  The state
    holds the last 624 words of the sequence, oldest first. *)

Module mt19937.

Definition w : Z := 32.
Definition n : nat := 624.
Definition m : nat := 397.
Definition r : Z := 31.
Definition a : Z := 0x9908b0df.
Definition u : Z := 11.
Definition d : Z := 0xffffffff.
Definition s : Z := 7.
Definition b : Z := 0x9d2c5680.
Definition t : Z := 15.
Definition c : Z := 0xefc60000.
Definition l : Z := 18.
Definition f : Z := 1812433253.

Definition state : Type := list Z.

(** The words after the first one: word [i] from word [i - 1]. *)
Fixpoint seed_rest (count : nat) (i : Z) (prev : Z) : list Z :=
  match count with
  | O => []
  | S count' =>
      let x := wrap w (f * Z.lxor prev (Z.shiftr prev (w - 2)) + i) in
      x :: seed_rest count' (i + 1) x
  end.

Definition seed (value : Z) : state :=
  let x0 := wrap w value in
  x0 :: seed_rest (n - 1) 1 x0.

Definition temper (x : Z) : Z :=
  let z1 := Z.lxor x (Z.land (Z.shiftr x u) d) in
  let z2 := Z.lxor z1 (Z.land (wrap w (Z.shiftl z1 s)) b) in
  let z3 := Z.lxor z2 (Z.land (wrap w (Z.shiftl z2 t)) c) in
  Z.lxor z3 (Z.shiftr z3 l).

Definition next (st : state) : Z * state :=
  let upper := Z.land (nth 0 st 0) (Z.shiftl (Z.ones (w - r)) r) in
  let lower := Z.land (nth 1 st 0) (Z.ones r) in
  let y := Z.lor upper lower in
  let alpha := a * Z.land y 1 in
  let x := Z.lxor (Z.lxor (nth m st 0) (Z.shiftr y 1)) alpha in
  (temper x, tail st ++ [x]).

#[global] Instance engine : RandomEngine state :=
  {| default_seed := 5489; construct := seed; invoke := next |}.

End mt19937.

(** ** [std::stringstream], as far as [to_string] uses it *)

Record stringstream : Type := mkStream {
  str : string;          (* the characters written *)
  fill_char : ascii;     (* [setfill] *)
  width : nat;           (* [setw]; reset by every formatted output *)
  uppercase_flag : bool; (* [uppercase] *)
  hex_flag : bool        (* basefield: [hex] or the initial [dec] *)
}.

Definition new_stringstream : stringstream := mkStream "" " " 0 false false.

Definition setfill (ch : ascii) (ss : stringstream) : stringstream :=
  mkStream (str ss) ch (width ss) (uppercase_flag ss) (hex_flag ss).

Definition setw (k : nat) (ss : stringstream) : stringstream :=
  mkStream (str ss) (fill_char ss) k (uppercase_flag ss) (hex_flag ss).

Definition uppercase (ss : stringstream) : stringstream :=
  mkStream (str ss) (fill_char ss) (width ss) true (hex_flag ss).

Definition hex (ss : stringstream) : stringstream :=
  mkStream (str ss) (fill_char ss) (width ss) (uppercase_flag ss) true.

Definition digit_char (upper : bool) (v : Z) : ascii :=
  ascii_of_N (Z.to_N (if v <? 10 then 48 + v
                      else (if upper then 65 else 97) + (v - 10))).

(** The digits of [v >= 0] in [base], most significant first, in front of
    [acc]; [fuel] bounds the number of digits. *)
Fixpoint digits (fuel : nat) (base : Z) (upper : bool) (v : Z) (acc : string) : string :=
  let acc := String (digit_char upper (v mod base)) acc in
  match fuel with
  | O => acc
  | S fuel' => if v / base =? 0 then acc else digits fuel' base upper (v / base) acc
  end.

(** Conversion of an [int]: in [hex] the value is written as the
    [unsigned int] of the same bits, in [dec] with a sign. *)
Definition format_int (ss : stringstream) (v : Z) : string :=
  if hex_flag ss then
    let v := wrap 32 v in
    digits (Z.to_nat (Z.log2 v)) 16 (uppercase_flag ss) v ""
  else
    let num := digits (Z.to_nat (Z.log2 (Z.abs v))) 10 false (Z.abs v) "" in
    if v <? 0 then String "-" num else num.

Fixpoint fill_string (k : nat) (ch : ascii) : string :=
  match k with
  | O => ""
  | S k' => String ch (fill_string k' ch)
  end.

(** Formatted output of [field]: padded on the left up to the width, which
    is then reset. *)
Definition put (ss : stringstream) (field : string) : stringstream :=
  let pad := fill_string (width ss - String.length field) (fill_char ss) in
  mkStream (str ss ++ pad ++ field) (fill_char ss) 0 (uppercase_flag ss) (hex_flag ss).

Definition put_int (ss : stringstream) (v : Z) : stringstream :=
  put ss (format_int ss v).

(** ** [to_string] *)

Fixpoint to_string_loop (data : list Z) (ss : stringstream) (i : Z) : stringstream :=
  match data with
  | [] => ss
  | e :: rest =>
      let ss := put_int (hex (uppercase (setw 2 (setfill "0" ss)))) e in
      let i := i + 1 in
      let ss :=
        if (i =? 4) || (i =? 6) || (i =? 8) || (i =? 10) then put ss "-" else ss in
      to_string_loop rest ss i
  end.

Definition to_string (data : list Z) : string :=
  str (to_string_loop data new_stringstream 0).

(** [guid_data_t]: sixteen [uint8_t]. *)
Definition guid_data (data : list Z) : Prop :=
  length data = 16%nat ∧ Forall (in_range 8) data.

(** ** [arguments] *)

(** [argv] is a list of C strings, [None] being the null pointer; reading
    past its end is undefined.  [remaining] counts the indices from [i] on
    that are still below [argc], so that [remaining = 0] is the failure of
    the test [i < argc]. *)
Fixpoint arguments_loop (remaining : nat) (argv : list (option string)) (i : Z)
  (args : string) : option string :=
  match remaining with
  | O => Some args
  | S remaining' =>
      entry ← array_at argv i;
      match entry with
      | None => Some args
      | Some text => arguments_loop remaining' argv (i + 1) ((args ++ " ") ++ text)%string
      end
  end.

Definition arguments (argc : Z) (argv : list (option string)) : option string :=
  if argc <? 1 then Some ""%string
  else
    entry ← array_at argv 1;
    match entry with
    | None => Some ""%string
    | Some text => arguments_loop (Z.to_nat (argc - 2)) argv 2 text
    end.

(** ** The [std::string] and C library functions [main] calls *)

(** [hay.find(needle)]: the first position at which [needle] occurs, or
    [None] for [npos]. *)
Fixpoint find (needle hay : string) : option nat :=
  if String.prefix needle hay then Some O
  else match hay with
       | EmptyString => None
       | String _ rest => S <$> find needle rest
       end.

Fixpoint string_mem (ch : ascii) (chars : string) : bool :=
  match chars with
  | EmptyString => false
  | String c rest => Ascii.eqb ch c || string_mem ch rest
  end.

(** [hay.find_first_of(chars)] *)
Fixpoint find_first_of (chars hay : string) : option nat :=
  match hay with
  | EmptyString => None
  | String c rest =>
      if string_mem c chars then Some O else S <$> find_first_of chars rest
  end.

(** [&s.c_str()[pos]]: the C string that starts at position [pos]. *)
Fixpoint c_str_from (pos : nat) (s : string) : string :=
  match pos, s with
  | O, _ => s
  | S pos', String _ rest => c_str_from pos' rest
  | S _, EmptyString => EmptyString
  end.

(** [s.front()]; undefined on the empty string. *)
Definition front (s : string) : option ascii :=
  match s with
  | EmptyString => None
  | String c _ => Some c
  end.

Definition is_digit (ch : ascii) : bool :=
  let v := N_of_ascii ch in ((48 <=? v) && (v <=? 57))%N.

(** [isspace] in the C locale. *)
Definition is_space (ch : ascii) : bool :=
  let v := N_of_ascii ch in ((v =? 32) || (9 <=? v) && (v <=? 13))%N.

Fixpoint skip_spaces (s : string) : string :=
  match s with
  | String c rest => if is_space c then skip_spaces rest else s
  | EmptyString => s
  end.

(** The value of the leading decimal digits of [s], continuing [acc]. *)
Fixpoint digits_value (s : string) (acc : Z) : Z :=
  match s with
  | String c rest =>
      if is_digit c then digits_value rest (acc * 10 + (Z.of_N (N_of_ascii c) - 48))
      else acc
  | EmptyString => acc
  end.

(** [std::atol]: white space, an optional sign, decimal digits.  A value
    that a [long] of [sizeof_long] bytes cannot hold is undefined. *)
Definition atol (sizeof_long : Z) (s : string) : option Z :=
  let s := skip_spaces s in
  let v :=
    match s with
    | String "-" rest => - digits_value rest 0
    | String "+" rest => digits_value rest 0
    | _ => digits_value s 0
    end in
  if (- 2 ^ (sizeof_long * 8 - 1) <=? v) && (v <? 2 ^ (sizeof_long * 8 - 1))
  then Some v else None.

Definition INT_MIN : Z := - 2 ^ 31.

(** Conversion of a [long] to the 32-bit [int]. *)
Definition to_int (v : Z) : Z := wrap 32 (v + 2 ^ 31) - 2 ^ 31.

(** ** [main] *)

Definition PROGRAM_NAME : string := "guid-generate".
Definition PROGRAM_VERSION : string := "1.0.0".

(** The line feed and the double quote, written with a backslash in the
    source. *)
Definition nl : string := String "010" "".
Definition dquote : string := String "034" "".

(** What a run leaves behind: the value returned and the text written to
    [cout] and [cerr]. *)
Record Outcome : Type := mkOutcome { status : Z; out : string; err : string }.

Definition help_text (cout : stringstream) : stringstream :=
  let cout := put cout "Usage: " in
  let cout := put cout PROGRAM_NAME in
  let cout := put cout (" [-h|--help|-n <lines>|<seed-string>]" ++ nl ++ nl) in
  let cout := put cout ("  <seed-string>: (1st arg no dash `-`): Text bytes used as seed." ++ nl) in
  let cout := put cout ("  -n <lines>   : Generate `lines` random output lines." ++ nl) in
  let cout := put cout ("  -h, --help   : Show this help." ++ nl) in
  let cout := put cout nl in
  let cout := put cout ("The program generates random or text seeded GUIDs, where the output" ++ nl) in
  let cout := put cout ("format is " ++ dquote ++ "XXXXXXXX-XXXX-XXXX-XXXX-XXXXXXXXXXXX" ++ dquote
                        ++ ". For argument defined" ++ nl) in
  let cout := put cout ("seed strings, it is recommended to use at least 16 characters." ++ nl) in
  let cout := put cout ("The integrated seed initialization value compiled with this this" ++ nl) in
  let cout := put cout "binary is 0x" in
  let cout := put_int (hex cout) SEED_OFFSET in
  let cout := put cout (". (Binaries with different seed init" ++ nl) in
  let cout := put cout ("will produce different outputs for the same given seed text)." ++ nl) in
  put cout nl.

Section main.
Variable sizeof_seed_type : Z.
Variable char_is_signed : bool.
(** [sizeof(long)] *)
Variable sizeof_long : Z.
Context {E : Type} `{RandomEngine E}.

(** The loop [while(--num_outputs >= 0)]: decrementing [INT_MIN] is
    undefined.  [fuel] bounds the number of lines; [main] passes enough. *)
Fixpoint output_loop (fuel : nat) (num_outputs : Z) (arg : string)
  (cout : stringstream) : M stringstream :=
  if num_outputs =? INT_MIN then of_option None
  else
    let num_outputs := num_outputs - 1 in
    if 0 <=? num_outputs then
      match fuel with
      | O => of_option None
      | S fuel' =>
          data ← generate_guid sizeof_seed_type char_is_signed (list_ascii_of_string arg);
          let cout := put cout (to_string data) in
          let cout := put cout nl in
          output_loop fuel' num_outputs arg cout
      end
    else mret cout.

Definition generate_lines (num_outputs : Z) (arg : string) : M Outcome :=
  cout ← output_loop (Z.to_nat num_outputs) num_outputs arg new_stringstream;
  mret (mkOutcome 0 (str cout) "").

Definition main (argc : Z) (argv : list (option string)) : M Outcome :=
  arg ← of_option (arguments argc argv);
  let num_outputs := 1 in
  if String.eqb arg "" then generate_lines num_outputs arg
  else if match find "-n" arg with Some O => true | _ => false end then
    match find_first_of "0123456789" arg with
    | None =>
        let cerr := put new_stringstream
                      ("Invalid option -n, missing number of output lines." ++ nl) in
        mret (mkOutcome 1 "" (str cerr))
    | Some pos =>
        v ← of_option (atol sizeof_long (c_str_from pos arg));
        let num_outputs := to_int v in
        let arg := ""%string in
        generate_lines num_outputs arg
    end
  else if String.eqb arg "--version" || String.eqb arg "-v" then
    let cout := put new_stringstream PROGRAM_NAME in
    let cout := put cout " version " in
    let cout := put cout PROGRAM_VERSION in
    let cout := put cout ("." ++ nl) in
    mret (mkOutcome 0 (str cout) "")
  else if String.eqb arg "--help" || String.eqb arg "-h" || String.eqb arg "/?" then
    mret (mkOutcome 0 (str (help_text new_stringstream)) "")
  else
    ch ← of_option (front arg);
    if Ascii.eqb ch "-" then
      let cerr := put new_stringstream "Invalid option '" in
      let cerr := put cerr arg in
      let cerr := put cerr ("', try --help" ++ nl) in
      mret (mkOutcome 1 "" (str cerr))
    else generate_lines num_outputs arg.
End main.

(** ** Vocabulary for the output of [main] *)



Fixpoint string_forallb (p : ascii → bool) (s : string) : bool :=
  match s with
  | EmptyString => true
  | String c rest => p c && string_forallb p rest
  end.

Definition starts_with_digit (s : string) : bool :=
  match s with
  | String c _ => is_digit c
  | EmptyString => false
  end.

(** A byte below [0x80], the range of ASCII. *)
Definition is_ascii (ch : ascii) : Prop := (N_of_ascii ch < 128)%N.

(** ** The rotation as the specification words it

    Follows the specification (section 4.1): the amount is normalised into
    [[0, bits)] by [s mod bits], a normalised amount of 0 returns [x], and
    any other amount [k] moves bit [i] of [x] to bit [(i + k) mod bits]. *)
Definition rotate_left (bits x s : Z) : Z :=
  let k := s mod bits in
  if k =? 0 then x
  else Z.lor (wrap bits (Z.shiftl x k)) (Z.shiftr x (bits - k)).

(** The shape of the fold [mkseed] runs on a non-empty seed, with the
    conversion [scalar_seed] of a seed element left open: the lemmas on
    [mkseed] use it at the conversion of the code, [seed_type(b)]. *)
Definition expand_fold (bits : Z) (scalar_seed : ascii → Z)
  (seed : list ascii) (offset rotation : Z) : Z :=
  fold_left
    (fun acc b =>
       rotate_left bits
         (Z.lxor acc (Z.lor (wrap bits (Z.shiftl acc 8)) (scalar_seed b)))
         rotation)
    seed offset.

(** The value of a seed byte, from 0 to 255. *)
Definition byte_value (b : ascii) : Z := Z.of_N (N_of_ascii b).

(** The non-empty branch of [expand] as the specification words it
    (section 4.1): a left-to-right fold over the seed bytes from [offset],
    each byte [b] taking [acc] to
    [rotate_left (acc XOR ((acc << 8) OR ScalarSeed(b))) rotation], where
    ScalarSeed(b) is the byte as a number. *)
Definition expand (bits : Z) (seed : list ascii) (offset rotation : Z) : Z :=
  fold_left
    (fun acc b =>
       rotate_left bits
         (Z.lxor acc (Z.lor (wrap bits (Z.shiftl acc 8)) (byte_value b)))
         rotation)
    seed offset.

(** ** The interleaving as the specification words it

    Follows the specification (section 4.2): the engines are selected in the
    order 1,2,3,0 repeated four times, one draw per byte, of which the low 8
    bits are kept.  Byte [p] is therefore the low byte of draw number
    [p / 4] of the engine whose index stands at position [p] of the order. *)
Definition selection_order : list nat :=
  [1; 2; 3; 0; 1; 2; 3; 0; 1; 2; 3; 0; 1; 2; 3; 0]%nat.

Definition interleave {E : Type} `{RandomEngine E} (e0 e1 e2 e3 : E) : list Z :=
  imap (λ p k, wrap 8 (nth_draw (p / 4) (nth k [e0; e1; e2; e3] e0))) selection_order.

(** ** The format as the specification words it

    Follows the specification (section 4.3): every byte is two upper-case
    hexadecimal digits, and a hyphen follows the 4th, 6th, 8th and 10th
    byte. *)
Definition upper_hex_digit (v : Z) : ascii :=
  nth (Z.to_nat v) (list_ascii_of_string "0123456789ABCDEF") "0"%char.

Definition two_hex_digits (byte : Z) : string :=
  String (upper_hex_digit (byte / 16)) (String (upper_hex_digit (byte mod 16)) "").

Definition hyphen_after (count : nat) : bool :=
  (count =? 4)%nat || (count =? 6)%nat || (count =? 8)%nat || (count =? 10)%nat.

(** [emitted] bytes were written before [data]. *)
Fixpoint format_from (emitted : nat) (data : list Z) : string :=
  match data with
  | [] => ""
  | byte :: rest =>
      two_hex_digits byte
      ++ (if hyphen_after (S emitted) then "-" else "")
      ++ format_from (S emitted) rest
  end.

Definition format (data : list Z) : string := format_from 0 data.

Definition hyphen_index (i : nat) : bool :=
  (i =? 8)%nat || (i =? 13)%nat || (i =? 18)%nat || (i =? 23)%nat.

Definition is_upper_hex_digit (ch : ascii) : bool :=
  let v := N_of_ascii ch in
  ((48 <=? v) && (v <=? 57) || (65 <=? v) && (v <=? 70))%N.

(** * Properties *)

(** ** Unsigned integers and bits *)

Lemma wrap_in_range bits v : 0 <= bits → in_range bits (wrap bits v).
Proof.
  intros Hb. unfold in_range, wrap. apply Z.mod_pos_bound. apply Z.pow_pos_nonneg; lia.
Qed.

Lemma wrap_small bits v : in_range bits v → wrap bits v = v.
Proof. intros Hv. unfold wrap. apply Z.mod_small. exact Hv. Qed.

Lemma in_range_testbit_high bits v i :
  in_range bits v → bits <= i → Z.testbit v i = false.
Proof.
  intros [Hlo Hhi] Hi.
  destruct (Z.eq_dec v 0) as [->|Hne]; [apply Z.bits_0|].
  apply Z.bits_above_log2; [lia|].
  assert (Z.log2 v < bits); [|lia].
  apply Z.log2_lt_pow2; lia.
Qed.

Lemma testbit_in_range bits v :
  0 <= bits → 0 <= v → (∀ i, bits <= i → Z.testbit v i = false) → in_range bits v.
Proof.
  intros Hb Hv Hhigh. split; [exact Hv|].
  destruct (Z.eq_dec v 0) as [->|Hne]; [apply Z.pow_pos_nonneg; lia|].
  apply Z.log2_lt_pow2; [lia|].
  destruct (Z_lt_le_dec (Z.log2 v) bits) as [Hlt|Hge]; [exact Hlt|].
  specialize (Hhigh (Z.log2 v) Hge).
  rewrite Z.bit_log2 in Hhigh by lia. discriminate.
Qed.

Lemma wrap_testbit bits v i :
  0 <= i < bits → Z.testbit (wrap bits v) i = Z.testbit v i.
Proof. intros Hi. unfold wrap. apply Z.mod_pow2_bits_low. lia. Qed.

Lemma rem_bounds s n : 0 < n → - n < Z.rem s n < n.
Proof.
  intros Hn. Z.quot_rem_to_equations. lia.
Qed.

Lemma rem_mod s n : 0 < n → Z.rem s n mod n = s mod n.
Proof.
  intros Hn. rewrite (Z.quot_rem' s n) at 2.
  rewrite Z.add_comm, Z.mul_comm, Z.mod_add by lia. reflexivity.
Qed.

(** The normalised amount in terms of the truncated remainder the code
    computes. *)
Lemma mod_of_rem s n :
  0 < n →
  s mod n = if Z.rem s n <? 0 then n + Z.rem s n else Z.rem s n.
Proof.
  intros Hn. rewrite <- (rem_mod s n Hn).
  pose proof (rem_bounds s n Hn) as Hb.
  destruct (Z.ltb_spec (Z.rem s n) 0).
  - replace (Z.rem s n) with ((n + Z.rem s n) + (-1) * n) at 1 by lia.
    rewrite Z.mod_add by lia. apply Z.mod_small. lia.
  - apply Z.mod_small. lia.
Qed.

(** ** [arith::rotl] *)

Section rotl_properties.
Variable sizeof_T : Z.
Hypothesis sizeof_T_pos : 0 < sizeof_T.

Local Abbreviation N := (arith.N sizeof_T).

Lemma N_pos : 0 < N.
Proof. unfold arith.N. lia. Qed.

Lemma shift_defined_spec k : shift_defined N k = true ↔ 0 <= k < N.
Proof. unfold shift_defined. rewrite andb_true_iff, Z.leb_le, Z.ltb_lt. tauto. Qed.

(** What a call of [rotl] does: the shift counts in the order of the
    source, and the value, which is the specification's rotation. *)
Lemma rotl_run x s :
  arith.rotl sizeof_T x s =
  (let r := Z.rem s N in
   if r =? 0 then [] else if r >? 0 then [r; N - r] else [- r; N + r],
   Some (rotate_left N x s)).
Proof.
  pose proof N_pos as HN. pose proof (rem_bounds s N HN) as Hr.
  pose proof (mod_of_rem s N HN) as Hm.
  unfold arith.rotl, rotate_left. cbv zeta. rewrite Hm.
  destruct (Z.eqb_spec (Z.rem s N) 0) as [Hz|Hz].
  - rewrite Hz. reflexivity.
  - destruct (Z.gtb_spec (Z.rem s N) 0) as [Hp|Hp].
    + rewrite (Z.rem_small (N - Z.rem s N) N) by lia.
      destruct (Z.ltb_spec (Z.rem s N) 0); [lia|].
      destruct (Z.eqb_spec (Z.rem s N) 0); [lia|].
      unfold mbind, Shifted_bind, mret, Shifted_ret, shl, shr. cbn [fst snd].
      rewrite !(proj2 (shift_defined_spec _)) by lia.
      reflexivity.
    + rewrite (Z.rem_small (N + Z.rem s N) N) by lia.
      destruct (Z.ltb_spec (Z.rem s N) 0); [|lia].
      destruct (Z.eqb_spec (N + Z.rem s N) 0); [lia|].
      unfold mbind, Shifted_bind, mret, Shifted_ret, shl, shr. cbn [fst snd].
      rewrite !(proj2 (shift_defined_spec _)) by lia.
      cbn [fst snd app]. rewrite Z.lor_comm.
      replace (N - (N + Z.rem s N)) with (- Z.rem s N) by lia.
      reflexivity.
Qed.

Lemma rotate_left_testbit x s i :
  in_range N x → 0 <= i < N →
  Z.testbit (rotate_left N x s) i = Z.testbit x ((i - s) mod N).
Proof.
  intros Hx Hi. pose proof N_pos as HN.
  pose proof (Z.mod_pos_bound s N HN) as Hk.
  assert ((i - s) mod N = (i - s mod N) mod N) as ->.
  { rewrite (Z.div_mod s N) at 1 by lia.
    replace (i - (N * (s / N) + s mod N)) with (i - s mod N + (- (s / N)) * N) by lia.
    apply Z.mod_add. lia. }
  unfold rotate_left. cbv zeta.
  destruct (Z.eqb_spec (s mod N) 0) as [Hz|Hz].
  - rewrite Hz, Z.sub_0_r, Z.mod_small by lia. reflexivity.
  - rewrite Z.lor_spec, wrap_testbit by lia.
    rewrite Z.shiftl_spec, Z.shiftr_spec by lia.
    destruct (Z_lt_le_dec i (s mod N)) as [Hlt|Hge].
    + rewrite (Z.testbit_neg_r x (i - s mod N)) by lia. cbn [orb].
      replace (i - s mod N) with (i + (N - s mod N) + (-1) * N) by lia.
      rewrite Z.mod_add by lia.
      rewrite (Z.mod_small (i + (N - s mod N)) N) by lia. reflexivity.
    + rewrite (in_range_testbit_high N x (i + (N - s mod N))) by (assumption || lia).
      rewrite orb_false_r, (Z.mod_small (i - s mod N) N) by lia. reflexivity.
Qed.

Lemma rotate_left_in_range x s : in_range N x → in_range N (rotate_left N x s).
Proof.
  intros Hx. pose proof N_pos as HN.
  pose proof (Z.mod_pos_bound s N HN) as Hk.
  unfold rotate_left. cbv zeta.
  destruct (Z.eqb_spec (s mod N) 0) as [Hz|Hz]; [exact Hx|].
  pose proof (wrap_in_range N (Z.shiftl x (s mod N)) ltac:(lia)) as Hw.
  apply testbit_in_range; [lia| |].
  - apply Z.lor_nonneg. split; [apply Hw|]. apply Z.shiftr_nonneg. apply Hx.
  - intros i Hi. rewrite Z.lor_spec.
    rewrite (in_range_testbit_high N _ i Hw Hi).
    rewrite Z.shiftr_spec by lia.
    apply (in_range_testbit_high N x); [exact Hx | lia].
Qed.

Lemma rotate_left_mod x s : rotate_left N x (s mod N) = rotate_left N x s.
Proof. unfold rotate_left. rewrite Z.mod_mod by (pose proof N_pos; lia). reflexivity. Qed.

Lemma rotate_left_congr x s s' : s mod N = s' mod N → rotate_left N x s = rotate_left N x s'.
Proof. intros Heq. unfold rotate_left. rewrite Heq. reflexivity. Qed.

End rotl_properties.

(** C10: whatever the value and the rotation amount (zero remainder and the
    smallest [int] included), every count [rotl] shifts by lies in [[0, N)],
    where [N] is the width of the rotated type, so no shift is undefined and
    a value is always returned; no shift at all is made when the amount is a
    multiple of [N]. *)
Theorem rotl_shift_counts_in_range (sizeof_T x s : Z) :
  0 < sizeof_T →
  Forall (λ k, 0 <= k < arith.N sizeof_T) (arith.rotl sizeof_T x s).1
  ∧ is_Some (arith.rotl sizeof_T x s).2
  ∧ (Z.rem s (arith.N sizeof_T) = 0 → (arith.rotl sizeof_T x s).1 = []).
Proof.
  intros Hpos. pose proof (N_pos sizeof_T Hpos) as HN.
  pose proof (rem_bounds s _ HN) as Hr.
  rewrite (rotl_run sizeof_T Hpos). cbn [fst snd]. split; [|split].
  - destruct (Z.eqb_spec (Z.rem s (arith.N sizeof_T)) 0); [constructor|].
    destruct (Z.gtb_spec (Z.rem s (arith.N sizeof_T)) 0);
      repeat constructor; lia.
  - eexists. reflexivity.
  - intros ->. reflexivity.
Qed.

Lemma rotl_shift_counts_in_range_int_min :
  Forall (λ k, 0 <= k < 32) (arith.rotl 4 0xdeadbeef (- 2 ^ 31 + 5)).1
  ∧ is_Some (arith.rotl 4 0xdeadbeef (- 2 ^ 31 + 5)).2
  ∧ (Z.rem (- 2 ^ 31 + 5) 32 = 0 → (arith.rotl 4 0xdeadbeef (- 2 ^ 31 + 5)).1 = []).
Proof. apply (rotl_shift_counts_in_range 4 0xdeadbeef (- 2 ^ 31 + 5)). lia. Defined.

(** C4: [rotl] is the circular rotation over the [N] bits of the rotated
    type: the result is an [N]-bit value whose bit [i] is bit
    [(i - s) mod N] of [x], for an amount [s] of either sign; it is the
    rotation by [s mod N]; amounts 0 and [N] return [x]; and the rotation by
    [- s] is the rotation by [N - s mod N] (with the remainder taken either
    way, floored or truncated). *)
Theorem rotl_circular (sizeof_T x s : Z) :
  0 < sizeof_T → in_range (arith.N sizeof_T) x →
  ∃ v, (arith.rotl sizeof_T x s).2 = Some v
    ∧ in_range (arith.N sizeof_T) v
    ∧ (∀ i, 0 <= i < arith.N sizeof_T →
         Z.testbit v i = Z.testbit x ((i - s) mod arith.N sizeof_T))
    ∧ (arith.rotl sizeof_T x (s mod arith.N sizeof_T)).2 = Some v
    ∧ (arith.rotl sizeof_T x 0).2 = Some x
    ∧ (arith.rotl sizeof_T x (arith.N sizeof_T)).2 = Some x
    ∧ (arith.rotl sizeof_T x (- s)).2
      = (arith.rotl sizeof_T x (arith.N sizeof_T - s mod arith.N sizeof_T)).2
    ∧ (arith.rotl sizeof_T x (- s)).2
      = (arith.rotl sizeof_T x (arith.N sizeof_T - Z.rem s (arith.N sizeof_T))).2.
Proof.
  intros Hpos Hx. pose proof (N_pos sizeof_T Hpos) as HN.
  exists (rotate_left (arith.N sizeof_T) x s).
  rewrite !(rotl_run sizeof_T Hpos). cbn [snd].
  split_and!.
  - reflexivity.
  - apply (rotate_left_in_range sizeof_T Hpos x s Hx).
  - intros i Hi. apply (rotate_left_testbit sizeof_T Hpos); assumption.
  - f_equal. apply (rotate_left_mod sizeof_T Hpos).
  - unfold rotate_left. rewrite Z.mod_0_l by lia. reflexivity.
  - unfold rotate_left. rewrite Z.mod_same by lia. reflexivity.
  - f_equal. apply rotate_left_congr.
    replace (arith.N sizeof_T - s mod arith.N sizeof_T)
      with (- s + (s / arith.N sizeof_T + 1) * arith.N sizeof_T).
    + rewrite Z.mod_add by lia. reflexivity.
    + pose proof (Z.div_mod s (arith.N sizeof_T) ltac:(lia)). lia.
  - f_equal. apply rotate_left_congr.
    replace (arith.N sizeof_T - Z.rem s (arith.N sizeof_T))
      with (- s + (Z.quot s (arith.N sizeof_T) + 1) * arith.N sizeof_T).
    + rewrite Z.mod_add by lia. reflexivity.
    + pose proof (Z.quot_rem' s (arith.N sizeof_T)). lia.
Qed.

Lemma rotl_circular_witness :
  ∃ v, (arith.rotl 4 0x80000001 (-37)).2 = Some v
    ∧ in_range (arith.N 4) v
    ∧ (∀ i, 0 <= i < arith.N 4 →
         Z.testbit v i = Z.testbit 0x80000001 ((i - (-37)) mod arith.N 4))
    ∧ (arith.rotl 4 0x80000001 ((-37) mod arith.N 4)).2 = Some v
    ∧ (arith.rotl 4 0x80000001 0).2 = Some 0x80000001
    ∧ (arith.rotl 4 0x80000001 (arith.N 4)).2 = Some 0x80000001
    ∧ (arith.rotl 4 0x80000001 (- (-37))).2
      = (arith.rotl 4 0x80000001 (arith.N 4 - (-37) mod arith.N 4)).2
    ∧ (arith.rotl 4 0x80000001 (- (-37))).2
      = (arith.rotl 4 0x80000001 (arith.N 4 - Z.rem (-37) (arith.N 4))).2.
Proof.
  apply (rotl_circular 4 0x80000001 (-37)); [lia | unfold in_range, arith.N; lia].
Defined.

(** ** [mkseed] *)

Lemma Shifted_bind_value {A B : Type} (m : Shifted A) (f : A → Shifted B) a :
  m.2 = Some a → (m ≫= f).2 = (f a).2.
Proof. intros Hm. unfold mbind, Shifted_bind. rewrite Hm. reflexivity. Qed.

Section mkseed_properties.
Variable sizeof_seed_type : Z.
Variable char_is_signed : bool.
Hypothesis static_assert : 4 <= sizeof_seed_type.

Local Abbreviation bits := (seed_bits sizeof_seed_type).
Local Abbreviation scalar_seed :=
  (fun b => seed_type sizeof_seed_type (char_value char_is_signed b)).

Lemma seed_bits_ge_32 : 32 <= bits.
Proof. unfold seed_bits, arith.N. lia. Qed.

Lemma rotl_value x s :
  (arith.rotl sizeof_seed_type x s).2 = Some (rotate_left bits x s).
Proof. rewrite rotl_run by lia. reflexivity. Qed.

Lemma mkseed_step_value rot acc b :
  (mkseed_step sizeof_seed_type char_is_signed rot acc b).2 =
  Some (rotate_left bits
          (Z.lxor acc (Z.lor (wrap bits (Z.shiftl acc 8)) (scalar_seed b))) rot).
Proof.
  pose proof seed_bits_ge_32 as Hb. unfold mkseed_step.
  rewrite (Shifted_bind_value _ _ (wrap bits (Z.shiftl acc 8))).
  - apply rotl_value.
  - unfold shl. cbn [snd].
    replace (shift_defined bits 8) with true; [reflexivity|].
    symmetry. unfold shift_defined. apply andb_true_iff.
    rewrite Z.leb_le, Z.ltb_lt. lia.
Qed.

Lemma accumulate_value rot seed acc :
  (accumulate seed acc (mkseed_step sizeof_seed_type char_is_signed rot)).2 =
  Some (expand_fold bits scalar_seed seed acc rot).
Proof.
  revert acc. induction seed as [|b seed IH]; intros acc; [reflexivity|].
  cbn [accumulate]. erewrite Shifted_bind_value by apply mkseed_step_value.
  rewrite IH. reflexivity.
Qed.

(** The fold branch: the environment is neither read nor changed. *)
Lemma mkseed_nonempty seed ofs rot w :
  seed ≠ [] →
  mkseed sizeof_seed_type char_is_signed seed ofs rot w =
  Some (expand_fold bits scalar_seed seed (seed_type sizeof_seed_type ofs) rot, w).
Proof.
  intros Hne. destruct seed as [|b seed]; [congruence|].
  unfold mkseed, of_shifted, of_option. rewrite accumulate_value. reflexivity.
Qed.

(** The entropy branch: one draw, rotated; the offset is not used. *)
Lemma mkseed_empty ofs rot w :
  mkseed sizeof_seed_type char_is_signed [] ofs rot w =
  Some (rotate_left bits (wrap 32 (rd_stream w (rd_reads w))) rot,
        mkWorld (rd_stream w) (S (rd_reads w))).
Proof.
  pose proof seed_bits_ge_32 as Hb.
  unfold mkseed, mbind, M_bind, random_device, of_shifted, of_option.
  rewrite rotl_value. unfold seed_type.
  rewrite (wrap_small bits (wrap 32 _)); [reflexivity|].
  pose proof (wrap_in_range 32 (rd_stream w (rd_reads w)) ltac:(lia)) as [Hlo Hhi].
  split; [exact Hlo|]. eapply Z.lt_le_trans; [exact Hhi|].
  apply Z.pow_le_mono_r; lia.
Qed.

Lemma mkseed_total seed ofs rot w :
  ∃ v w', mkseed sizeof_seed_type char_is_signed seed ofs rot w = Some (v, w')
          ∧ (seed ≠ [] → w' = w).
Proof.
  destruct seed as [|b seed].
  - do 2 eexists. split; [apply mkseed_empty|]. congruence.
  - do 2 eexists. split; [apply mkseed_nonempty; congruence|]. reflexivity.
Qed.

End mkseed_properties.

Lemma expand_fold_ext bits (f g : ascii → Z) seed acc rot :
  Forall (λ b, f b = g b) seed →
  expand_fold bits f seed acc rot = expand_fold bits g seed acc rot.
Proof.
  intros Hfg. revert acc. induction Hfg as [|b seed Hb _ IH]; intros acc; [reflexivity|].
  unfold expand_fold. cbn [fold_left]. rewrite Hb. apply IH.
Qed.






(** The scenario of the specification: offset [0x271D8A39], seed bytes
    ["test"], rotation 0.  With a 32-bit [seed_type] the first scalar seed is
    [0x530C8D2F]; with a 64-bit one its low 32 bits, which are all the engine
    takes, are the same. *)
Example mkseed_test_s0_32 (char_is_signed : bool) (w : World) :
  mkseed 4 char_is_signed (list_ascii_of_string "test") SEED_OFFSET 0 w
  = Some (0x530C8D2F, w).
Proof. destruct char_is_signed; reflexivity. Qed.

Example mkseed_test_s0_64 (char_is_signed : bool) (w : World) :
  mkseed 8 char_is_signed (list_ascii_of_string "test") SEED_OFFSET 0 w
  = Some (0x271D8A39530C8D2F, w).
Proof. destruct char_is_signed; reflexivity. Qed.

(** [seed_type(b)] follows the signedness of [char]: a byte above [0x7F]
    is sign-extended where [char] is signed. *)
Example mkseed_high_byte_signed (w : World) :
  mkseed 4 true ["233"%char] 0 0 w = Some (0xFFFFFFE9, w)
  ∧ mkseed 4 false ["233"%char] 0 0 w = Some (0xE9, w).
Proof. split; reflexivity. Qed.

(** C7: on the empty seed [mkseed] makes exactly one draw from the
    environment and returns that value rotated by the rotation amount, the
    offset playing no part; on the seed made of the single byte [0x00] it
    returns the fold over that byte, the environment being neither read nor
    advanced. *)
Theorem mkseed_branches (sizeof_seed_type : Z) (char_is_signed : bool)
  (ofs rot : Z) (w : World) :
  4 <= sizeof_seed_type →
  mkseed sizeof_seed_type char_is_signed [] ofs rot w =
    Some (rotate_left (seed_bits sizeof_seed_type)
            (wrap 32 (rd_stream w (rd_reads w))) rot,
          mkWorld (rd_stream w) (S (rd_reads w)))
  ∧ (∀ ofs', mkseed sizeof_seed_type char_is_signed [] ofs' rot w =
             mkseed sizeof_seed_type char_is_signed [] ofs rot w)
  ∧ mkseed sizeof_seed_type char_is_signed [Ascii.zero] ofs rot w =
    Some (rotate_left (seed_bits sizeof_seed_type)
            (Z.lxor (seed_type sizeof_seed_type ofs)
               (wrap (seed_bits sizeof_seed_type)
                  (Z.shiftl (seed_type sizeof_seed_type ofs) 8))) rot,
          w)
  ∧ (∀ w', fst <$> mkseed sizeof_seed_type char_is_signed [Ascii.zero] ofs rot w' =
           fst <$> mkseed sizeof_seed_type char_is_signed [Ascii.zero] ofs rot w).
Proof.
  intros Hsz. split_and!.
  - apply mkseed_empty. exact Hsz.
  - intros ofs'. rewrite !(mkseed_empty _ _ Hsz). reflexivity.
  - rewrite (mkseed_nonempty _ _ Hsz) by discriminate.
    unfold expand_fold. cbn [fold_left].
    replace (seed_type sizeof_seed_type (char_value char_is_signed zero)) with 0.
    + rewrite Z.lor_0_r. reflexivity.
    + destruct char_is_signed; reflexivity.
  - intros w'. rewrite !(mkseed_nonempty _ _ Hsz) by discriminate. reflexivity.
Qed.

Lemma mkseed_branches_witness :
  mkseed 4 true [] 5 7 (mkWorld (fun k => Z.of_nat k + 0x1234) 2) =
    Some (rotate_left (seed_bits 4) (wrap 32 (Z.of_nat 2 + 0x1234)) 7,
          mkWorld (fun k => Z.of_nat k + 0x1234) 3)
  ∧ (∀ ofs', mkseed 4 true [] ofs' 7 (mkWorld (fun k => Z.of_nat k + 0x1234) 2) =
             mkseed 4 true [] 5 7 (mkWorld (fun k => Z.of_nat k + 0x1234) 2))
  ∧ mkseed 4 true [Ascii.zero] 5 7 (mkWorld (fun k => Z.of_nat k + 0x1234) 2) =
    Some (rotate_left (seed_bits 4)
            (Z.lxor (seed_type 4 5) (wrap (seed_bits 4) (Z.shiftl (seed_type 4 5) 8))) 7,
          mkWorld (fun k => Z.of_nat k + 0x1234) 2)
  ∧ (∀ w', fst <$> mkseed 4 true [Ascii.zero] 5 7 w' =
           fst <$> mkseed 4 true [Ascii.zero] 5 7
                     (mkWorld (fun k => Z.of_nat k + 0x1234) 2)).
Proof.
  apply (mkseed_branches 4 true 5 7 (mkWorld (fun k => Z.of_nat k + 0x1234) 2)). lia.
Defined.

(** ** [generate_guid] *)

Section generate_guid_properties.
Variable sizeof_seed_type : Z.
Variable char_is_signed : bool.
Context {E : Type} `{RandomEngine E}.

Local Abbreviation mkseed' := (mkseed sizeof_seed_type char_is_signed).
Local Abbreviation generate_guid' := (generate_guid sizeof_seed_type char_is_signed).

Lemma fill_run (e0 e1 e2 e3 : E) :
  fill (replicate 16 0) [e0; e1; e2; e3] 0 =
  Some (interleave e0 e1 e2 e3,
        [advance 4 e0; advance 4 e1; advance 4 e2; advance 4 e3], 16).
Proof. reflexivity. Qed.

(** The index [(++i) & 0x3] is inside the array for every value of the
    counter, so the loop runs to its end on data of any length. *)
Lemma fill_total (data : list Z) (mt : list E) (i : Z) :
  length mt = 4%nat →
  ∃ out mt', fill data mt i = Some (out, mt', i + Z.of_nat (length data))
             ∧ length out = length data ∧ length mt' = 4%nat
             ∧ Forall (in_range 8) out.
Proof.
  revert mt i. induction data as [|e rest IH]; intros mt i Hmt.
  - exists [], mt. cbn. rewrite Z.add_0_r. auto.
  - cbn [fill].
    assert (0 <= Z.land (i + 1) 3 < 4) as Hk.
    { change 3 with (Z.ones 2). rewrite Z.land_ones by lia.
      apply Z.mod_pos_bound. lia. }
    destruct (lookup_lt_is_Some_2 mt (Z.to_nat (Z.land (i + 1) 3))) as [en Hen]; [lia|].
    unfold array_invoke, array_at.
    destruct (Z.leb_spec 0 (Z.land (i + 1) 3)); [|lia].
    rewrite Hen. cbn [mbind option_bind].
    destruct (IH (<[Z.to_nat (Z.land (i + 1) 3) := (invoke en).2]> mt) (i + 1))
      as (out & mt' & Hrun & Hout & Hmt' & Hbytes).
    { rewrite length_insert. exact Hmt. }
    rewrite Hrun. cbn [mbind option_bind].
    exists (wrap 8 (invoke en).1 :: out), mt'. split_and!.
    + do 2 f_equal. cbn [length]. lia.
    + cbn [length]. rewrite Hout. reflexivity.
    + exact Hmt'.
    + constructor; [apply wrap_in_range; lia | exact Hbytes].
Qed.

Lemma interleave_guid_data (e0 e1 e2 e3 : E) : guid_data (interleave e0 e1 e2 e3).
Proof.
  split; [reflexivity|].
  unfold interleave, selection_order. cbn [imap].
  repeat (constructor; [apply wrap_in_range; lia|]). constructor.
Qed.

(** One run of [generate_guid], given what the four calls of [mkseed]
    return. *)
Lemma generate_guid_run seed w s0 w1 s1 w2 s2 w3 s3 w4 :
  mkseed' seed SEED_OFFSET 0 w = Some (s0, w1) →
  mkseed' seed (nth_draw 0 (construct s0)) 7 w1 = Some (s1, w2) →
  mkseed' seed (nth_draw 0 (construct s1)) 11 w2 = Some (s2, w3) →
  mkseed' seed (nth_draw 0 (construct s2)) 13 w3 = Some (s3, w4) →
  generate_guid' seed w =
  Some (interleave (advance 1 (construct s0)) (advance 1 (construct s1))
          (advance 1 (construct s2)) (construct s3), w4).
Proof.
  intros H0 H1 H2 H3. unfold generate_guid, mbind, M_bind.
  rewrite H0. simpl. change (invoke (construct s0)).1 with (nth_draw 0 (construct s0)).
  rewrite H1. change (invoke (construct s1)).1 with (nth_draw 0 (construct s1)).
  rewrite H2. change (invoke (construct s2)).1 with (nth_draw 0 (construct s2)).
  rewrite H3. reflexivity.
Qed.

Hypothesis static_assert : 4 <= sizeof_seed_type.

Lemma generate_guid_some seed w :
  ∃ s0 w1 s1 w2 s2 w3 s3 w4,
    mkseed' seed SEED_OFFSET 0 w = Some (s0, w1)
    ∧ mkseed' seed (nth_draw 0 (construct s0)) 7 w1 = Some (s1, w2)
    ∧ mkseed' seed (nth_draw 0 (construct s1)) 11 w2 = Some (s2, w3)
    ∧ mkseed' seed (nth_draw 0 (construct s2)) 13 w3 = Some (s3, w4)
    ∧ (seed ≠ [] → w4 = w).
Proof.
  destruct (mkseed_total _ char_is_signed static_assert seed SEED_OFFSET 0 w)
    as (s0 & w1 & H0 & E0).
  destruct (mkseed_total _ char_is_signed static_assert seed
              (nth_draw 0 (construct s0)) 7 w1) as (s1 & w2 & H1 & E1).
  destruct (mkseed_total _ char_is_signed static_assert seed
              (nth_draw 0 (construct s1)) 11 w2) as (s2 & w3 & H2 & E2).
  destruct (mkseed_total _ char_is_signed static_assert seed
              (nth_draw 0 (construct s2)) 13 w3) as (s3 & w4 & H3 & E3).
  exists s0, w1, s1, w2, s2, w3, s3, w4. split_and!; try assumption.
  intros Hne. rewrite (E3 Hne), (E2 Hne), (E1 Hne), (E0 Hne). reflexivity.
Qed.

End generate_guid_properties.


(** C2: [generate_guid] derives the four scalar seeds one after the other,
    with the rotation amounts 0, 7, 11 and 13: the first from the compiled
    offset, each following one from the first value drawn from the engine
    built on the seed before it.  The loop therefore starts from engines 0, 1
    and 2 one draw after their construction and from engine 3 as
    constructed. *)
Theorem generate_guid_cascade (sizeof_seed_type : Z) (char_is_signed : bool)
  {E : Type} `{RandomEngine E} (seed : list ascii) (w : World) :
  4 <= sizeof_seed_type →
  ∃ s0 w1 s1 w2 s2 w3 s3 w4,
    mkseed sizeof_seed_type char_is_signed seed SEED_OFFSET 0 w = Some (s0, w1)
    ∧ mkseed sizeof_seed_type char_is_signed seed
        (nth_draw 0 (construct s0)) 7 w1 = Some (s1, w2)
    ∧ mkseed sizeof_seed_type char_is_signed seed
        (nth_draw 0 (construct s1)) 11 w2 = Some (s2, w3)
    ∧ mkseed sizeof_seed_type char_is_signed seed
        (nth_draw 0 (construct s2)) 13 w3 = Some (s3, w4)
    ∧ generate_guid sizeof_seed_type char_is_signed seed w =
      (λ r, (r.1.1, w4)) <$>
        fill (replicate 16 0)
          [advance 1 (construct s0); advance 1 (construct s1);
           advance 1 (construct s2); construct s3] 0.
Proof.
  intros Hsz.
  destruct (generate_guid_some sizeof_seed_type char_is_signed Hsz seed w)
    as (s0 & w1 & s1 & w2 & s2 & w3 & s3 & w4 & H0 & H1 & H2 & H3 & _).
  exists s0, w1, s1, w2, s2, w3, s3, w4. split_and!; try assumption.
  rewrite fill_run.
  apply (generate_guid_run _ _ seed w s0 w1 s1 w2 s2 w3 s3 w4); assumption.
Qed.

Lemma generate_guid_cascade_witness :
  ∃ s0 w1 s1 w2 s2 w3 s3 w4,
    mkseed 4 true (list_ascii_of_string "test") SEED_OFFSET 0
      (mkWorld (fun _ => 0) 0) = Some (s0, w1)
    ∧ mkseed 4 true (list_ascii_of_string "test")
        (nth_draw 0 (construct (E := mt19937.state) s0)) 7 w1 = Some (s1, w2)
    ∧ mkseed 4 true (list_ascii_of_string "test")
        (nth_draw 0 (construct (E := mt19937.state) s1)) 11 w2 = Some (s2, w3)
    ∧ mkseed 4 true (list_ascii_of_string "test")
        (nth_draw 0 (construct (E := mt19937.state) s2)) 13 w3 = Some (s3, w4)
    ∧ generate_guid 4 true (list_ascii_of_string "test") (mkWorld (fun _ => 0) 0) =
      (λ r, (r.1.1, w4)) <$>
        fill (replicate 16 0)
          [advance 1 (construct (E := mt19937.state) s0); advance 1 (construct s1);
           advance 1 (construct s2); construct s3] 0.
Proof.
  apply (generate_guid_cascade 4 true (list_ascii_of_string "test")
           (mkWorld (fun _ => 0) 0)).
  lia.
Defined.

(** C5: on a non-empty seed [generate_guid] returns the same sixteen bytes
    whatever the environment, which it neither reads nor advances; two calls
    in a row return the same bytes twice. *)
Theorem generate_guid_deterministic (sizeof_seed_type : Z) (char_is_signed : bool)
  {E : Type} `{RandomEngine E} (seed : list ascii) :
  4 <= sizeof_seed_type → seed ≠ [] →
  ∃ data,
    (∀ w, generate_guid sizeof_seed_type char_is_signed seed w = Some (data, w))
    ∧ (∀ w, (d1 ← generate_guid sizeof_seed_type char_is_signed seed;
             d2 ← generate_guid sizeof_seed_type char_is_signed seed;
             mret (d1, d2)) w = Some ((data, data), w)).
Proof.
  intros Hsz Hne.
  pose (expand := λ ofs rot,
          expand_fold (seed_bits sizeof_seed_type)
            (fun b => seed_type sizeof_seed_type (char_value char_is_signed b))
            seed (seed_type sizeof_seed_type ofs) rot).
  pose (s0 := expand SEED_OFFSET 0).
  pose (s1 := expand (nth_draw 0 (construct s0)) 7).
  pose (s2 := expand (nth_draw 0 (construct s1)) 11).
  pose (s3 := expand (nth_draw 0 (construct s2)) 13).
  exists (interleave (advance 1 (construct s0)) (advance 1 (construct s1))
            (advance 1 (construct s2)) (construct s3)).
  assert (∀ w, generate_guid sizeof_seed_type char_is_signed seed w =
               Some (interleave (advance 1 (construct s0)) (advance 1 (construct s1))
                       (advance 1 (construct s2)) (construct s3), w)) as Hrun.
  { intros w.
    apply (generate_guid_run _ _ seed w s0 w s1 w s2 w s3 w);
      apply (mkseed_nonempty _ _ Hsz); exact Hne. }
  split; [exact Hrun|].
  intros w. unfold mbind at 1, M_bind at 1. rewrite Hrun.
  unfold mbind, M_bind. rewrite Hrun. reflexivity.
Qed.

Lemma generate_guid_deterministic_witness :
  ∃ data,
    (∀ w, generate_guid 4 true (list_ascii_of_string "test") w = Some (data, w))
    ∧ (∀ w, (d1 ← generate_guid 4 true (list_ascii_of_string "test");
             d2 ← generate_guid 4 true (list_ascii_of_string "test");
             mret (d1, d2)) w = Some ((data, data), w)).
Proof.
  apply (generate_guid_deterministic 4 true (E := mt19937.state)
           (list_ascii_of_string "test")); [lia | discriminate].
Defined.

(** ** [to_string] *)

(** With [hex] and [uppercase] set, converting a byte gives its two
    upper-case hexadecimal digits, or a single one below 16. *)
Lemma format_int_byte ss v :
  hex_flag ss = true → uppercase_flag ss = true → in_range 8 v →
  format_int ss v =
  if v <? 16 then String (upper_hex_digit v) "" else two_hex_digits v.
Proof.
  intros Hhex Hup [Hlo Hhi]. unfold format_int. rewrite Hhex, Hup.
  assert (forallb
            (λ k, let v := Z.of_nat k in
                  String.eqb (digits (Z.to_nat (Z.log2 (wrap 32 v))) 16 true (wrap 32 v) "")
                    (if v <? 16 then String (upper_hex_digit v) ""
                     else two_hex_digits v))
            (seq 0 256) = true) as Hall by (vm_compute; reflexivity).
  rewrite forallb_forall in Hall.
  specialize (Hall (Z.to_nat v)). cbv zeta in Hall.
  rewrite Z2Nat.id in Hall by exact Hlo.
  apply String.eqb_eq, Hall, in_seq.
  change (2 ^ 8) with 256 in Hhi. lia.
Qed.

Lemma string_app_assoc (s1 s2 s3 : string) :
  ((s1 ++ s2) ++ s3 = s1 ++ (s2 ++ s3))%string.
Proof. induction s1 as [|ch s1 IH]; cbn; [reflexivity | rewrite IH; reflexivity]. Qed.

Lemma string_app_nil_r (s1 : string) : (s1 ++ "" = s1)%string.
Proof. induction s1 as [|ch s1 IH]; cbn; [reflexivity | rewrite IH; reflexivity]. Qed.

Lemma two_hex_digits_small v :
  0 <= v < 16 → two_hex_digits v = String "0" (String (upper_hex_digit v) "").
Proof.
  intros Hv. unfold two_hex_digits.
  rewrite Z.div_small, Z.mod_small by lia. reflexivity.
Qed.

(** One pass of the loop body on the stream: the byte comes out as its two
    digits, whatever the state of the stream before. *)
Lemma put_int_byte ss v :
  in_range 8 v →
  put_int (hex (uppercase (setw 2 (setfill "0" ss)))) v =
  mkStream (str ss ++ two_hex_digits v) "0" 0 true true.
Proof.
  intros Hv. unfold put_int, put.
  rewrite (format_int_byte (hex (uppercase (setw 2 (setfill "0" ss)))) v
             eq_refl eq_refl Hv). cbn [hex uppercase setw setfill
    str fill_char width uppercase_flag hex_flag].
  destruct (Z.ltb_spec v 16) as [Hlt|Hge].
  - rewrite two_hex_digits_small by (destruct Hv; lia). reflexivity.
  - reflexivity.
Qed.

Lemma hyphen_after_Z (count : nat) :
  (Z.of_nat count =? 4) || (Z.of_nat count =? 6) || (Z.of_nat count =? 8)
    || (Z.of_nat count =? 10) = hyphen_after count.
Proof.
  unfold hyphen_after.
  repeat match goal with
         | |- context [Z.of_nat count =? ?k] =>
             replace (Z.of_nat count =? k) with (count =? Z.to_nat k)%nat
               by (destruct (Z.eqb_spec (Z.of_nat count) k),
                            (Nat.eqb_spec count (Z.to_nat k)); (reflexivity || lia))
         end.
  reflexivity.
Qed.

Lemma to_string_loop_str data ss count :
  Forall (in_range 8) data →
  str (to_string_loop data ss (Z.of_nat count)) = (str ss ++ format_from count data)%string.
Proof.
  intros Hdata. revert ss count.
  induction Hdata as [|e rest He Hrest IH]; intros ss count.
  - cbn. rewrite string_app_nil_r. reflexivity.
  - cbn [to_string_loop format_from]. rewrite put_int_byte by exact He.
    replace (Z.of_nat count + 1) with (Z.of_nat (S count)) by lia.
    rewrite hyphen_after_Z, IH.
    destruct (hyphen_after (S count)); cbn [put str width fill_char Nat.sub fill_string];
      rewrite ?string_app_assoc; reflexivity.
Qed.

Lemma to_string_eq_format data : Forall (in_range 8) data → to_string data = format data.
Proof. intros Hdata. apply (to_string_loop_str data new_stringstream 0 Hdata). Qed.

Lemma upper_hex_digit_is_upper_hex v : is_upper_hex_digit (upper_hex_digit v) = true.
Proof.
  unfold upper_hex_digit.
  generalize (Z.to_nat v) as k. intros k.
  do 16 (destruct k as [|k]; [reflexivity|]). destruct k; reflexivity.
Qed.

(** The format of sixteen bytes, character by character. *)
Lemma format_chars data i ch :
  length data = 16%nat → String.get i (format data) = Some ch →
  (i < 36)%nat
  ∧ (if hyphen_index i then ch = "-"%char else is_upper_hex_digit ch = true).
Proof.
  intros Hlen.
  do 17 (destruct data as [|? data]; try discriminate Hlen).
  cbn -[upper_hex_digit].
  do 36 (destruct i as [|i];
    [intros [= <-]; split; [lia|];
     cbn -[upper_hex_digit]; rewrite ?upper_hex_digit_is_upper_hex; reflexivity|]).
  discriminate.
Qed.

Lemma format_length data : length data = 16%nat → String.length (format data) = 36%nat.
Proof.
  intros Hlen.
  do 17 (destruct data as [|? data]; try discriminate Hlen).
  reflexivity.
Qed.

Lemma string_get_lt (s : string) (i : nat) :
  (i < String.length s)%nat → ∃ ch, String.get i s = Some ch.
Proof.
  revert i. induction s as [|c s IH]; intros i Hi; cbn in Hi; [lia|].
  destruct i as [|i]; cbn; [eauto|]. apply IH. lia.
Qed.

(** C6: for every sixteen bytes, [to_string] writes each byte as its two
    zero-padded upper-case hexadecimal digits and a hyphen after the 4th,
    6th, 8th and 10th byte, and nothing else: the string has 36 characters,
    those at indices 8, 13, 18 and 23 are hyphens and every other one is an
    upper-case hexadecimal digit. *)
Theorem to_string_canonical (data : list Z) :
  guid_data data →
  to_string data = format data
  ∧ String.length (to_string data) = 36%nat
  ∧ ∀ i, (i < 36)%nat →
      ∃ ch, String.get i (to_string data) = Some ch
            ∧ (if hyphen_index i then ch = "-"%char
               else is_upper_hex_digit ch = true).
Proof.
  intros [Hlen Hbytes]. rewrite (to_string_eq_format data Hbytes).
  split_and!; [reflexivity | apply format_length, Hlen |].
  intros i Hi.
  destruct (string_get_lt (format data) i) as [ch Hch].
  { rewrite format_length by exact Hlen. exact Hi. }
  exists ch. split; [exact Hch|].
  apply (format_chars data i ch Hlen Hch).
Qed.

Lemma to_string_canonical_witness :
  to_string [0x12; 0; 0xAB; 0xFF; 4; 5; 6; 7; 8; 9; 10; 11; 12; 13; 14; 15]
  = format [0x12; 0; 0xAB; 0xFF; 4; 5; 6; 7; 8; 9; 10; 11; 12; 13; 14; 15]
  ∧ String.length
      (to_string [0x12; 0; 0xAB; 0xFF; 4; 5; 6; 7; 8; 9; 10; 11; 12; 13; 14; 15])
    = 36%nat
  ∧ ∀ i, (i < 36)%nat →
      ∃ ch, String.get i
              (to_string [0x12; 0; 0xAB; 0xFF; 4; 5; 6; 7; 8; 9; 10; 11; 12; 13; 14; 15])
            = Some ch
            ∧ (if hyphen_index i then ch = "-"%char
               else is_upper_hex_digit ch = true).
Proof.
  apply (to_string_canonical [0x12; 0; 0xAB; 0xFF; 4; 5; 6; 7; 8; 9; 10; 11; 12; 13; 14; 15]).
  split; [reflexivity|].
  repeat (constructor; [unfold in_range; lia|]). constructor.
Defined.

Example to_string_sample :
  to_string [0x12; 0; 0xAB; 0xFF; 4; 5; 6; 7; 8; 9; 10; 11; 12; 13; 14; 15]
  = "1200ABFF-0405-0607-0809-0A0B0C0D0E0F"%string.
Proof. reflexivity. Qed.

(** Outside the byte range the digits are no longer two: the width is a
    minimum, not a limit. *)
Example to_string_wide_value : to_string [0x100] = "100"%string.
Proof. reflexivity. Qed.

(** ** Evaluations *)

Example rotl_32_left : arith.rotl 4 0x80000001 4 = ([4; 28], Some 0x18).
Proof. reflexivity. Qed.

Example rotl_32_right : arith.rotl 4 0x80000001 (-4) = ([4; 28], Some 0x18000000).
Proof. reflexivity. Qed.

Example rotl_32_int_min : arith.rotl 4 0x12345678 (- 2 ^ 31) = ([], Some 0x12345678).
Proof. reflexivity. Qed.

Example rotl_64_left : arith.rotl 8 0x8000000000000001 7 = ([7; 57], Some 0xC0).
Proof. reflexivity. Qed.

(** The value the C++ standard requires of the 10000th consecutive draw of a
    default-constructed [mt19937], and the first draw. *)
Example mt19937_first_draw : nth_draw 0 (construct (E := mt19937.state) default_seed) = 3499211612.
Proof. vm_compute. reflexivity. Qed.

Example mt19937_10000th_draw :
  nth_draw (Z.to_nat 9999) (construct (E := mt19937.state) default_seed) = 4123659995.
Proof. vm_compute. reflexivity. Qed.

(** The whole program on the seed ["test"], with a 32-bit and with a 64-bit
    [seed_type]. *)
Example generate_guid_test_32 (w : World) :
  (λ r, to_string r.1) <$> generate_guid 4 true (list_ascii_of_string "test") w
  = Some "4092E764-C2CE-A3D5-7292-345E8BAFFC66"%string.
Proof. vm_compute. reflexivity. Qed.

Example generate_guid_test_64 (w : World) :
  (λ r, to_string r.1) <$> generate_guid 8 true (list_ascii_of_string "test") w
  = Some "F8AAA364-7C16-F8D5-4522-275E0EDDF066"%string.
Proof. vm_compute. reflexivity. Qed.

(** * Further properties *)

(** ** [arith::rotl]: composition and inverse *)

Lemma in_range_eq_bits bits x y :
  0 <= bits → in_range bits x → in_range bits y →
  (∀ i, 0 <= i < bits → Z.testbit x i = Z.testbit y i) → x = y.
Proof.
  intros Hb Hx Hy Hbits. apply Z.bits_inj'. intros i Hi.
  destruct (Z_lt_le_dec i bits) as [Hlt|Hge].
  - apply Hbits. lia.
  - rewrite (in_range_testbit_high bits x i Hx Hge).
    rewrite (in_range_testbit_high bits y i Hy Hge). reflexivity.
Qed.

Lemma rotate_left_compose sizeof_T x a b :
  0 < sizeof_T → in_range (arith.N sizeof_T) x →
  rotate_left (arith.N sizeof_T) (rotate_left (arith.N sizeof_T) x a) b
  = rotate_left (arith.N sizeof_T) x (a + b).
Proof.
  intros Hpos Hx. pose proof (N_pos sizeof_T Hpos) as HN.
  pose proof (rotate_left_in_range sizeof_T Hpos x a Hx) as Hxa.
  apply (in_range_eq_bits (arith.N sizeof_T)); [lia| | |].
  - apply (rotate_left_in_range sizeof_T Hpos _ b Hxa).
  - apply (rotate_left_in_range sizeof_T Hpos x (a + b) Hx).
  - intros i Hi.
    rewrite (rotate_left_testbit sizeof_T Hpos _ b i Hxa Hi).
    rewrite (rotate_left_testbit sizeof_T Hpos x a _ Hx)
      by (apply Z.mod_pos_bound; lia).
    rewrite (rotate_left_testbit sizeof_T Hpos x (a + b) i Hx Hi).
    f_equal. rewrite Zminus_mod_idemp_l. f_equal. lia.
Qed.

(** X1: rotating by [a] and then by [b] is rotating by [a + b]. *)
Theorem rotl_compose (sizeof_T x a b : Z) :
  0 < sizeof_T → in_range (arith.N sizeof_T) x →
  (arith.rotl sizeof_T x a).2 ≫= (λ y, (arith.rotl sizeof_T y b).2)
  = (arith.rotl sizeof_T x (a + b)).2.
Proof.
  intros Hpos Hx. rewrite !(rotl_run sizeof_T Hpos). cbn [snd mbind option_bind].
  rewrite (rotl_run sizeof_T Hpos). cbn [snd]. f_equal.
  apply rotate_left_compose; assumption.
Qed.

Lemma rotl_compose_witness :
  (arith.rotl 4 0xdeadbeef 7).2 ≫= (λ y, (arith.rotl 4 y (-45)).2)
  = (arith.rotl 4 0xdeadbeef (7 + -45)).2.
Proof.
  apply (rotl_compose 4 0xdeadbeef 7 (-45)); [lia | unfold in_range, arith.N; lia].
Defined.

(** X2: rotating back by the opposite amount returns the value rotated, so
    [rotl] loses nothing: two values with the same rotation are equal. *)
Theorem rotl_inverse (sizeof_T x y s : Z) :
  0 < sizeof_T → in_range (arith.N sizeof_T) x → in_range (arith.N sizeof_T) y →
  ((arith.rotl sizeof_T x s).2 ≫= (λ v, (arith.rotl sizeof_T v (- s)).2) = Some x)
  ∧ ((arith.rotl sizeof_T x s).2 = (arith.rotl sizeof_T y s).2 → x = y).
Proof.
  intros Hpos Hx Hy. pose proof (N_pos sizeof_T Hpos) as HN.
  assert (∀ z, in_range (arith.N sizeof_T) z →
    rotate_left (arith.N sizeof_T) (rotate_left (arith.N sizeof_T) z s) (- s) = z)
    as Hback.
  { intros z Hz. rewrite rotate_left_compose by assumption.
    replace (s + - s) with 0 by lia.
    unfold rotate_left. rewrite Z.mod_0_l by lia. reflexivity. }
  rewrite !(rotl_run sizeof_T Hpos). cbn [snd mbind option_bind].
  rewrite (rotl_run sizeof_T Hpos). cbn [snd]. split.
  - f_equal. apply Hback, Hx.
  - intros [= Heq]. rewrite <- (Hback x Hx), <- (Hback y Hy), Heq. reflexivity.
Qed.

Lemma rotl_inverse_witness :
  ((arith.rotl 8 0x0123456789abcdef 13).2 ≫= (λ v, (arith.rotl 8 v (- 13)).2)
   = Some 0x0123456789abcdef)
  ∧ ((arith.rotl 8 0x0123456789abcdef 13).2 = (arith.rotl 8 0xff 13).2 →
     0x0123456789abcdef = 0xff).
Proof.
  apply (rotl_inverse 8 0x0123456789abcdef 0xff 13);
    [lia | unfold in_range, arith.N; lia | unfold in_range, arith.N; lia].
Defined.

(** ** [mkseed]: range, chaining and portability *)

Lemma lxor_in_range bits x y :
  0 <= bits → in_range bits x → in_range bits y → in_range bits (Z.lxor x y).
Proof.
  intros Hb Hx Hy. apply testbit_in_range; [exact Hb| |].
  - apply Z.lxor_nonneg. destruct Hx, Hy. lia.
  - intros i Hi. rewrite Z.lxor_spec.
    rewrite (in_range_testbit_high bits x i Hx Hi).
    rewrite (in_range_testbit_high bits y i Hy Hi). reflexivity.
Qed.

Lemma lor_in_range bits x y :
  0 <= bits → in_range bits x → in_range bits y → in_range bits (Z.lor x y).
Proof.
  intros Hb Hx Hy. apply testbit_in_range; [exact Hb| |].
  - apply Z.lor_nonneg. destruct Hx, Hy. lia.
  - intros i Hi. rewrite Z.lor_spec.
    rewrite (in_range_testbit_high bits x i Hx Hi).
    rewrite (in_range_testbit_high bits y i Hy Hi). reflexivity.
Qed.

Lemma wrap_wrap_le small large v :
  0 <= small <= large → wrap small (wrap large v) = wrap small v.
Proof.
  intros Hle. unfold wrap. apply Z.mod_mod_divide.
  exists (2 ^ (large - small)). rewrite <- Z.pow_add_r by lia. f_equal. lia.
Qed.

Section mkseed_more.
Variable sizeof_seed_type : Z.
Variable char_is_signed : bool.
Hypothesis static_assert : 4 <= sizeof_seed_type.

Local Abbreviation bits := (seed_bits sizeof_seed_type).
Local Abbreviation scalar_seed :=
  (fun b => seed_type sizeof_seed_type (char_value char_is_signed b)).

Lemma bits_nonneg : 0 <= bits.
Proof. pose proof (seed_bits_ge_32 sizeof_seed_type static_assert). lia. Qed.

Lemma expand_fold_in_range seed acc rot :
  in_range bits acc → in_range bits (expand_fold bits scalar_seed seed acc rot).
Proof.
  pose proof bits_nonneg as Hb. revert acc.
  induction seed as [|b seed IH]; intros acc Hacc; [exact Hacc|].
  unfold expand_fold. cbn [fold_left]. apply IH.
  apply rotate_left_in_range; [lia|].
  apply lxor_in_range; [exact Hb | exact Hacc |].
  apply lor_in_range; [exact Hb | |]; apply wrap_in_range; exact Hb.
Qed.

Lemma mkseed_result_in_range seed ofs rot w v w' :
  mkseed sizeof_seed_type char_is_signed seed ofs rot w = Some (v, w') →
  in_range bits v.
Proof.
  pose proof bits_nonneg as Hb.
  pose proof (seed_bits_ge_32 sizeof_seed_type static_assert) as Hb32.
  destruct seed as [|b seed].
  - rewrite (mkseed_empty _ _ static_assert). intros [= <- _].
    apply rotate_left_in_range; [lia|].
    pose proof (wrap_in_range 32 (rd_stream w (rd_reads w)) ltac:(lia)) as [Hlo Hhi].
    split; [exact Hlo|]. eapply Z.lt_le_trans; [exact Hhi|].
    unfold seed_bits in Hb32. apply Z.pow_le_mono_r; lia.
  - rewrite (mkseed_nonempty _ _ static_assert) by discriminate. intros [= <- _].
    apply (expand_fold_in_range (b :: seed)). apply wrap_in_range, Hb.
Qed.

Lemma mkseed_app seed1 seed2 ofs rot w :
  seed1 ≠ [] → seed2 ≠ [] →
  mkseed sizeof_seed_type char_is_signed (seed1 ++ seed2) ofs rot w =
  (mkseed sizeof_seed_type char_is_signed seed1 ofs rot
     ≫= λ v, mkseed sizeof_seed_type char_is_signed seed2 v rot) w.
Proof.
  intros H1 H2. unfold mbind, M_bind.
  rewrite (mkseed_nonempty _ _ static_assert (seed1 ++ seed2))
    by (destruct seed1; [congruence | discriminate]).
  rewrite (mkseed_nonempty _ _ static_assert seed1) by assumption.
  rewrite (mkseed_nonempty _ _ static_assert seed2) by assumption.
  pose proof (expand_fold_in_range seed1 (seed_type sizeof_seed_type ofs) rot
                (wrap_in_range _ _ bits_nonneg)) as Hr.
  rewrite (wrap_small _ _ Hr : seed_type sizeof_seed_type _ = _).
  unfold expand_fold. rewrite fold_left_app. reflexivity.
Qed.

End mkseed_more.

(** X3: whatever the seed, the offset and the rotation amount, the value
    [mkseed] returns is a value of [seed_type]: it lies in [[0, 2^N)]. *)
Theorem mkseed_in_range (sizeof_seed_type : Z) (char_is_signed : bool)
  (seed : list ascii) (ofs rot : Z) (w : World) :
  4 <= sizeof_seed_type →
  ∃ v w', mkseed sizeof_seed_type char_is_signed seed ofs rot w = Some (v, w')
          ∧ in_range (seed_bits sizeof_seed_type) v.
Proof.
  intros Hsz.
  destruct (mkseed_total _ char_is_signed Hsz seed ofs rot w) as (v & w' & Hrun & _).
  exists v, w'. split; [exact Hrun|].
  apply (mkseed_result_in_range _ _ Hsz seed ofs rot w v w' Hrun).
Qed.

Lemma mkseed_in_range_witness :
  ∃ v w', mkseed 4 true ["255"%char; "200"%char] (2 ^ 40 + 5) (-3)
            (mkWorld (fun _ => 0) 0) = Some (v, w')
          ∧ in_range (seed_bits 4) v.
Proof.
  apply (mkseed_in_range 4 true ["255"%char; "200"%char] (2 ^ 40 + 5) (-3)
           (mkWorld (fun _ => 0) 0)).
  lia.
Defined.

(** X4: the scalar seed of a seed text in two non-empty parts is the scalar
    seed of the second part, taken with the scalar seed of the first part as
    its offset. *)
Theorem mkseed_concatenation (sizeof_seed_type : Z) (char_is_signed : bool)
  (seed1 seed2 : list ascii) (ofs rot : Z) (w : World) :
  4 <= sizeof_seed_type → seed1 ≠ [] → seed2 ≠ [] →
  mkseed sizeof_seed_type char_is_signed (seed1 ++ seed2) ofs rot w =
  (mkseed sizeof_seed_type char_is_signed seed1 ofs rot
     ≫= λ v, mkseed sizeof_seed_type char_is_signed seed2 v rot) w.
Proof. intros Hsz H1 H2. apply mkseed_app; assumption. Qed.

Lemma mkseed_concatenation_witness :
  mkseed 4 true (list_ascii_of_string "te" ++ list_ascii_of_string "st") SEED_OFFSET 7
    (mkWorld (fun _ => 0) 0) =
  (mkseed 4 true (list_ascii_of_string "te") SEED_OFFSET 7
     ≫= λ v, mkseed 4 true (list_ascii_of_string "st") v 7) (mkWorld (fun _ => 0) 0).
Proof.
  apply (mkseed_concatenation 4 true (list_ascii_of_string "te")
           (list_ascii_of_string "st") SEED_OFFSET 7 (mkWorld (fun _ => 0) 0));
    [lia | discriminate | discriminate].
Defined.

Lemma wrap_lxor bits x y :
  0 <= bits → wrap bits (Z.lxor x y) = Z.lxor (wrap bits x) (wrap bits y).
Proof.
  intros Hb. unfold wrap. rewrite <- !Z.land_ones by exact Hb.
  apply Z.bits_inj'. intros i Hi.
  rewrite Z.lxor_spec, !Z.land_spec, Z.lxor_spec.
  destruct (Z.testbit (Z.ones bits) i); rewrite ?andb_true_r, ?andb_false_r; reflexivity.
Qed.

Lemma wrap_lor bits x y :
  0 <= bits → wrap bits (Z.lor x y) = Z.lor (wrap bits x) (wrap bits y).
Proof.
  intros Hb. unfold wrap. rewrite <- !Z.land_ones by exact Hb.
  apply Z.bits_inj'. intros i Hi.
  rewrite Z.lor_spec, !Z.land_spec, Z.lor_spec.
  destruct (Z.testbit (Z.ones bits) i); rewrite ?andb_true_r, ?andb_false_r; reflexivity.
Qed.

Lemma wrap_shiftl bits x k :
  0 <= bits → 0 <= k →
  wrap bits (Z.shiftl (wrap bits x) k) = wrap bits (Z.shiftl x k).
Proof.
  intros Hb Hk. unfold wrap. rewrite !Z.shiftl_mul_pow2 by exact Hk.
  apply Z.mul_mod_idemp_l.
  pose proof (Z.pow_pos_nonneg 2 bits ltac:(lia) Hb). lia.
Qed.

Lemma rotate_left_0 bits x : rotate_left bits x 0 = x.
Proof. unfold rotate_left. rewrite Zmod_0_l. reflexivity. Qed.

(** With no rotation, the low 32 bits of the fold depend only on the low 32
    bits of the accumulator and of the converted bytes. *)
Lemma expand_fold_low_32 bits (f f32 : ascii → Z) seed acc :
  32 <= bits → (∀ b, wrap 32 (f b) = f32 b) →
  wrap 32 (expand_fold bits f seed acc 0) = expand_fold 32 f32 seed (wrap 32 acc) 0.
Proof.
  intros Hb Hf. revert acc. induction seed as [|b seed IH]; intros acc; [reflexivity|].
  unfold expand_fold. cbn [fold_left]. rewrite !rotate_left_0.
  change (wrap 32 (expand_fold bits f seed
            (Z.lxor acc (Z.lor (wrap bits (Z.shiftl acc 8)) (f b))) 0) =
          expand_fold 32 f32 seed
            (Z.lxor (wrap 32 acc)
               (Z.lor (wrap 32 (Z.shiftl (wrap 32 acc) 8)) (f32 b))) 0).
  rewrite IH. f_equal.
  rewrite wrap_lxor, wrap_lor, wrap_wrap_le, Hf, wrap_shiftl by lia. reflexivity.
Qed.

Lemma char_value_ascii ch : is_ascii ch → char_value true ch = char_value false ch.
Proof.
  unfold is_ascii, char_value. intros Hch. cbv zeta. cbn [andb].
  destruct (Z.leb_spec 128 (Z.of_N (N_of_ascii ch))); [lia | reflexivity].
Qed.

Lemma mkseed_ascii sizeof_seed_type seed ofs rot w :
  4 <= sizeof_seed_type → Forall is_ascii seed →
  mkseed sizeof_seed_type true seed ofs rot w = mkseed sizeof_seed_type false seed ofs rot w.
Proof.
  intros Hsz Hseed. destruct seed as [|b seed].
  - rewrite !(mkseed_empty _ _ Hsz). reflexivity.
  - rewrite !(mkseed_nonempty _ _ Hsz) by discriminate. do 2 f_equal.
    apply expand_fold_ext. eapply Forall_impl; [exact Hseed|].
    intros ch Hch. cbv beta. rewrite (char_value_ascii ch Hch). reflexivity.
Qed.

(** ** [generate_guid]: character signedness, width of [seed_type], empty seed *)

Section generate_guid_more.
Variable sizeof_seed_type : Z.
Context {E : Type} `{RandomEngine E}.
Hypothesis static_assert : 4 <= sizeof_seed_type.

(** The scalar seeds and the bytes of a run on a non-empty seed, written
    out. *)
Lemma generate_guid_nonempty char_is_signed seed w :
  seed ≠ [] →
  generate_guid sizeof_seed_type char_is_signed seed w =
  let expand := λ ofs rot,
    expand_fold (seed_bits sizeof_seed_type)
      (fun b => seed_type sizeof_seed_type (char_value char_is_signed b))
      seed (seed_type sizeof_seed_type ofs) rot in
  let s0 := expand SEED_OFFSET 0 in
  let s1 := expand (nth_draw 0 (construct s0)) 7 in
  let s2 := expand (nth_draw 0 (construct s1)) 11 in
  let s3 := expand (nth_draw 0 (construct s2)) 13 in
  Some (interleave (advance 1 (construct s0)) (advance 1 (construct s1))
          (advance 1 (construct s2)) (construct s3), w).
Proof.
  intros Hne. cbv zeta.
  apply (generate_guid_run _ _ seed w _ w _ w _ w _ w);
    apply (mkseed_nonempty _ _ static_assert); exact Hne.
Qed.

Lemma generate_guid_char_sign seed w :
  Forall is_ascii seed →
  generate_guid sizeof_seed_type true seed w = generate_guid sizeof_seed_type false seed w.
Proof.
  intros Hseed.
  destruct (generate_guid_some sizeof_seed_type true static_assert seed w)
    as (s0 & w1 & s1 & w2 & s2 & w3 & s3 & w4 & H0 & H1 & H2 & H3 & _).
  rewrite (generate_guid_run _ _ seed w s0 w1 s1 w2 s2 w3 s3 w4 H0 H1 H2 H3).
  rewrite (mkseed_ascii _ seed _ _ _ static_assert Hseed) in H0.
  rewrite (mkseed_ascii _ seed _ _ _ static_assert Hseed) in H1.
  rewrite (mkseed_ascii _ seed _ _ _ static_assert Hseed) in H2.
  rewrite (mkseed_ascii _ seed _ _ _ static_assert Hseed) in H3.
  rewrite (generate_guid_run _ _ seed w s0 w1 s1 w2 s2 w3 s3 w4 H0 H1 H2 H3).
  reflexivity.
Qed.

Lemma interleave_engine_0 (e0 e1 e2 e3 e1' e2' e3' : E) (p : nat) :
  p ∈ [3; 7; 11; 15]%nat →
  interleave e0 e1 e2 e3 !! p = interleave e0 e1' e2' e3' !! p.
Proof.
  rewrite !elem_of_cons, elem_of_nil.
  intros [->|[->|[->|[->|[]]]]]; reflexivity.
Qed.

End generate_guid_more.

(** X5: a seed text of ASCII characters gives the same bytes whether [char]
    is a signed type or not. *)
Theorem generate_guid_ascii_char_sign (sizeof_seed_type : Z)
  {E : Type} `{RandomEngine E} (seed : list ascii) (w : World) :
  4 <= sizeof_seed_type → Forall is_ascii seed →
  generate_guid sizeof_seed_type true seed w = generate_guid sizeof_seed_type false seed w.
Proof. intros Hsz Hseed. apply generate_guid_char_sign; assumption. Qed.

Lemma generate_guid_ascii_char_sign_witness :
  generate_guid 8 true (E := mt19937.state) (list_ascii_of_string "seed text")
    (mkWorld (fun _ => 0) 0)
  = generate_guid 8 false (list_ascii_of_string "seed text") (mkWorld (fun _ => 0) 0).
Proof.
  apply (generate_guid_ascii_char_sign 8 (list_ascii_of_string "seed text")
           (mkWorld (fun _ => 0) 0)); [lia|].
  repeat (constructor; [reflexivity|]). constructor.
Defined.

Lemma expand_fold_width sizeof_seed_type char_is_signed seed ofs :
  4 <= sizeof_seed_type →
  wrap 32 (expand_fold (seed_bits sizeof_seed_type)
             (λ b, seed_type sizeof_seed_type (char_value char_is_signed b))
             seed (seed_type sizeof_seed_type ofs) 0)
  = expand_fold (seed_bits 4) (λ b, seed_type 4 (char_value char_is_signed b))
      seed (seed_type 4 ofs) 0.
Proof.
  intros Hsz. pose proof (seed_bits_ge_32 _ Hsz) as Hb.
  change (seed_bits 4) with 32.
  rewrite (expand_fold_low_32 _ _
             (λ b, seed_type 4 (char_value char_is_signed b)) seed _ Hb).
  - unfold seed_type at 2 3. change (seed_bits 4) with 32.
    rewrite wrap_wrap_le by lia. reflexivity.
  - intros b. unfold seed_type. change (seed_bits 4) with 32.
    apply wrap_wrap_le. lia.
Qed.

(** X6: with rotation amount 0, the amount of the first scalar seed, the low
    32 bits of what [mkseed] returns on a non-empty seed do not depend on the
    width of [seed_type]: they are what a 32-bit [seed_type] gives. *)
Theorem mkseed_unrotated_low_32 (sizeof_seed_type : Z) (char_is_signed : bool)
  (seed : list ascii) (ofs : Z) (w : World) :
  4 <= sizeof_seed_type → seed ≠ [] →
  ∃ v, mkseed sizeof_seed_type char_is_signed seed ofs 0 w = Some (v, w)
       ∧ mkseed 4 char_is_signed seed ofs 0 w = Some (wrap 32 v, w).
Proof.
  intros Hsz Hne. eexists. split; [apply (mkseed_nonempty _ _ Hsz); exact Hne|].
  rewrite (mkseed_nonempty 4 char_is_signed ltac:(lia)) by exact Hne.
  rewrite (expand_fold_width _ _ seed ofs Hsz). reflexivity.
Qed.

Lemma mkseed_unrotated_low_32_witness :
  ∃ v, mkseed 8 true (list_ascii_of_string "test") SEED_OFFSET 0 (mkWorld (fun _ => 0) 0)
       = Some (v, mkWorld (fun _ => 0) 0)
       ∧ mkseed 4 true (list_ascii_of_string "test") SEED_OFFSET 0 (mkWorld (fun _ => 0) 0)
         = Some (wrap 32 v, mkWorld (fun _ => 0) 0).
Proof.
  apply (mkseed_unrotated_low_32 8 true (list_ascii_of_string "test") SEED_OFFSET
           (mkWorld (fun _ => 0) 0)); [lia | discriminate].
Defined.

Lemma mt19937_seed_low_32 (v : Z) :
  construct (E := mt19937.state) v = construct (wrap 32 v).
Proof.
  cbn [construct mt19937.engine]. unfold mt19937.seed.
  change mt19937.w with 32. rewrite wrap_wrap_le by lia. reflexivity.
Qed.

(** X7: on a non-empty seed, with an engine that takes its seed modulo
    [2^32] as [std::mt19937] does, the bytes drawn from engine 0 (those at
    indices 3, 7, 11 and 15) are the same for every width of [seed_type]. *)
Theorem generate_guid_engine_0_bytes (sizeof_seed_type : Z) (char_is_signed : bool)
  {E : Type} `{RandomEngine E} (seed : list ascii) :
  4 <= sizeof_seed_type → seed ≠ [] →
  (∀ v, construct v = construct (wrap 32 v)) →
  ∃ data data32,
    (∀ w, generate_guid sizeof_seed_type char_is_signed seed w = Some (data, w))
    ∧ (∀ w, generate_guid 4 char_is_signed seed w = Some (data32, w))
    ∧ ∀ p, p ∈ [3; 7; 11; 15]%nat → data !! p = data32 !! p.
Proof.
  intros Hsz Hne Hconstruct.
  pose (wide := λ ofs rot,
          expand_fold (seed_bits sizeof_seed_type)
            (fun b => seed_type sizeof_seed_type (char_value char_is_signed b))
            seed (seed_type sizeof_seed_type ofs) rot).
  pose (narrow := λ ofs rot,
          expand_fold (seed_bits 4)
            (fun b => seed_type 4 (char_value char_is_signed b))
            seed (seed_type 4 ofs) rot).
  assert (construct (wide SEED_OFFSET 0) = construct (narrow SEED_OFFSET 0)) as Hsame.
  { rewrite (Hconstruct (wide SEED_OFFSET 0)). unfold wide, narrow.
    rewrite (expand_fold_width _ _ seed SEED_OFFSET Hsz). reflexivity. }
  exists
    (interleave
       (advance 1 (construct (wide SEED_OFFSET 0)))
       (advance 1 (construct (wide (nth_draw 0 (construct (wide SEED_OFFSET 0))) 7)))
       (advance 1 (construct
          (wide (nth_draw 0 (construct
             (wide (nth_draw 0 (construct (wide SEED_OFFSET 0))) 7))) 11)))
       (construct
          (wide (nth_draw 0 (construct
             (wide (nth_draw 0 (construct
                (wide (nth_draw 0 (construct (wide SEED_OFFSET 0))) 7))) 11))) 13))),
    (interleave
       (advance 1 (construct (narrow SEED_OFFSET 0)))
       (advance 1 (construct (narrow (nth_draw 0 (construct (narrow SEED_OFFSET 0))) 7)))
       (advance 1 (construct
          (narrow (nth_draw 0 (construct
             (narrow (nth_draw 0 (construct (narrow SEED_OFFSET 0))) 7))) 11)))
       (construct
          (narrow (nth_draw 0 (construct
             (narrow (nth_draw 0 (construct
                (narrow (nth_draw 0 (construct (narrow SEED_OFFSET 0))) 7))) 11))) 13))).
  split_and!.
  - intros w. apply (generate_guid_nonempty _ Hsz). exact Hne.
  - intros w. apply (generate_guid_nonempty 4 ltac:(lia)). exact Hne.
  - intros p Hp. rewrite Hsame. apply interleave_engine_0, Hp.
Qed.

Lemma generate_guid_engine_0_bytes_witness :
  ∃ data data32,
    (∀ w, generate_guid 8 true (E := mt19937.state) (list_ascii_of_string "test") w
          = Some (data, w))
    ∧ (∀ w, generate_guid 4 true (E := mt19937.state) (list_ascii_of_string "test") w
            = Some (data32, w))
    ∧ ∀ p, p ∈ [3; 7; 11; 15]%nat → data !! p = data32 !! p.
Proof.
  apply (generate_guid_engine_0_bytes 8 true (list_ascii_of_string "test"));
    [lia | discriminate | exact mt19937_seed_low_32].
Defined.

(** The other bytes do depend on the width: the seed ["test"] with a 32-bit
    and with a 64-bit [seed_type]. *)
Example generate_guid_width_differs (w : World) :
  fst <$> generate_guid 4 true (E := mt19937.state) (list_ascii_of_string "test") w
  ≠ fst <$> generate_guid 8 true (list_ascii_of_string "test") w.
Proof. vm_compute. discriminate. Qed.

(** X8: on the empty seed [generate_guid] makes exactly four draws from the
    environment and builds the four engines on them, rotated by 0, 7, 11 and
    13 bits; the values drawn from the engines as offsets play no part. *)
Theorem generate_guid_empty_seed (sizeof_seed_type : Z) (char_is_signed : bool)
  {E : Type} `{RandomEngine E} (w : World) :
  4 <= sizeof_seed_type →
  generate_guid sizeof_seed_type char_is_signed [] w =
  Some (interleave
          (advance 1 (construct (wrap 32 (rd_stream w (rd_reads w)))))
          (advance 1 (construct (rotate_left (seed_bits sizeof_seed_type)
                                   (wrap 32 (rd_stream w (1 + rd_reads w))) 7)))
          (advance 1 (construct (rotate_left (seed_bits sizeof_seed_type)
                                   (wrap 32 (rd_stream w (2 + rd_reads w))) 11)))
          (construct (rotate_left (seed_bits sizeof_seed_type)
                        (wrap 32 (rd_stream w (3 + rd_reads w))) 13)),
        mkWorld (rd_stream w) (4 + rd_reads w)).
Proof.
  intros Hsz.
  rewrite <- (rotate_left_0 (seed_bits sizeof_seed_type)
                (wrap 32 (rd_stream w (rd_reads w)))).
  eapply generate_guid_run; rewrite (mkseed_empty _ _ Hsz); reflexivity.
Qed.

Lemma generate_guid_empty_seed_witness :
  generate_guid 4 true (E := mt19937.state) [] (mkWorld (fun k => Z.of_nat k) 5) =
  Some (interleave
          (advance 1 (construct (wrap 32 (Z.of_nat 5))))
          (advance 1 (construct (rotate_left (seed_bits 4) (wrap 32 (Z.of_nat 6)) 7)))
          (advance 1 (construct (rotate_left (seed_bits 4) (wrap 32 (Z.of_nat 7)) 11)))
          (construct (rotate_left (seed_bits 4) (wrap 32 (Z.of_nat 8)) 13)),
        mkWorld (fun k => Z.of_nat k) 9).
Proof.
  apply (generate_guid_empty_seed 4 true (mkWorld (fun k => Z.of_nat k) 5)). lia.
Defined.

(** ** [to_string]: distinct bytes, distinct text *)

Lemma upper_hex_digit_inj a b :
  0 <= a < 16 → 0 <= b < 16 → upper_hex_digit a = upper_hex_digit b → a = b.
Proof.
  intros Ha Hb. unfold upper_hex_digit. intros Heq.
  assert (Z.to_nat a = Z.to_nat b) as Hnat; [|lia].
  assert (Z.to_nat a < 16)%nat as Hna by lia.
  assert (Z.to_nat b < 16)%nat as Hnb by lia.
  revert Heq Hna Hnb. generalize (Z.to_nat a) as n, (Z.to_nat b) as m. intros n m.
  do 16 (destruct n as [|n];
    [do 16 (destruct m as [|m]; [first [reflexivity | discriminate]|]); lia|]).
  lia.
Qed.

Lemma two_hex_digits_inj a b :
  in_range 8 a → in_range 8 b → two_hex_digits a = two_hex_digits b → a = b.
Proof.
  unfold in_range. change (2 ^ 8) with 256. intros Ha Hb [= Hhi Hlo].
  apply upper_hex_digit_inj in Hhi;
    [|split; [apply Z.div_pos | apply Z.div_lt_upper_bound]; lia ..].
  apply upper_hex_digit_inj in Hlo; [|apply Z.mod_pos_bound; lia ..].
  rewrite (Z.div_mod a 16), (Z.div_mod b 16) by lia. rewrite Hhi, Hlo. reflexivity.
Qed.

Lemma format_from_inj emitted data1 data2 :
  Forall (in_range 8) data1 → Forall (in_range 8) data2 →
  format_from emitted data1 = format_from emitted data2 → data1 = data2.
Proof.
  intros H1. revert emitted data2.
  induction H1 as [|a rest1 Ha _ IH]; intros emitted data2 H2 Heq.
  - destruct data2; [reflexivity | discriminate Heq].
  - destruct H2 as [|b rest2 Hb H2]; [discriminate Heq|].
    cbn [format_from] in Heq.
    assert (two_hex_digits a = two_hex_digits b
            ∧ format_from (S emitted) rest1 = format_from (S emitted) rest2)
      as [Hhead Htail].
    { unfold two_hex_digits in *. cbn [append] in Heq.
      injection Heq as Hhi Hlo Hrest. rewrite Hhi, Hlo. split; [reflexivity|].
      destruct (hyphen_after (S emitted)); cbn [append] in Hrest;
        [injection Hrest as Hrest|]; exact Hrest. }
    rewrite (two_hex_digits_inj a b Ha Hb Hhead), (IH _ _ H2 Htail). reflexivity.
Qed.

(** X9: two different sixteen-byte values never have the same text: from
    the text of [to_string] the bytes can be told. *)
Theorem to_string_injective (data1 data2 : list Z) :
  guid_data data1 → guid_data data2 →
  to_string data1 = to_string data2 → data1 = data2.
Proof.
  intros [_ H1] [_ H2].
  rewrite (to_string_eq_format data1 H1), (to_string_eq_format data2 H2).
  apply format_from_inj; assumption.
Qed.

Lemma to_string_injective_witness :
  replicate 16 0xAB = (λ b, b + 1) <$> replicate 16 0xAA.
Proof.
  apply (to_string_injective (replicate 16 0xAB) ((λ b, b + 1) <$> replicate 16 0xAA)).
  - split; [reflexivity|]. repeat (constructor; [unfold in_range; lia|]). constructor.
  - split; [reflexivity|]. repeat (constructor; [unfold in_range; lia|]). constructor.
  - reflexivity.
Defined.

(** ** [arguments] *)

Lemma array_at_middle {A : Type} (pre post : list A) (x : A) :
  array_at (pre ++ x :: post) (Z.of_nat (length pre)) = Some x.
Proof.
  unfold array_at. destruct (Z.leb_spec 0 (Z.of_nat (length pre))); [|lia].
  rewrite Nat2Z.id. apply list_lookup_middle. reflexivity.
Qed.

Lemma arguments_loop_run (rest : list string) (pre : list (option string)) (args : string) :
  arguments_loop (length rest) (pre ++ (Some <$> rest) ++ [None])
    (Z.of_nat (length pre)) args
  = Some (fold_left (λ a text, ((a ++ " ") ++ text)%string) rest args).
Proof.
  revert pre args. induction rest as [|text rest IH]; intros pre args; [reflexivity|].
  cbn [length arguments_loop fmap list_fmap app].
  rewrite array_at_middle. cbn [mbind option_bind].
  replace (Z.of_nat (length pre) + 1) with (Z.of_nat (length (pre ++ [Some text])))
    by (rewrite length_app; cbn [length]; lia).
  replace (pre ++ Some text :: (Some <$> rest) ++ [None])
    with ((pre ++ [Some text]) ++ (Some <$> rest) ++ [None])
    by (rewrite <- app_assoc; reflexivity).
  apply IH.
Qed.

Lemma fold_left_join (rest : list string) (args : string) :
  fold_left (λ a text, ((a ++ " ") ++ text)%string) rest args
  = String.concat " " (args :: rest).
Proof.
  revert args. induction rest as [|text rest IH]; intros args; [reflexivity|].
  cbn [fold_left]. rewrite IH. cbn [String.concat].
  destruct rest; rewrite !string_app_assoc; reflexivity.
Qed.

(** X10: for a command line as the system hands it over ([argc] entries
    followed by the null pointer), [arguments] returns the arguments after
    the program name, joined by single spaces; with no argument, and with no
    program name either, it returns the empty string. *)
Theorem arguments_joined (args : list string) :
  arguments (Z.of_nat (length args)) ((Some <$> args) ++ [None])
  = Some (String.concat " " (tail args)).
Proof.
  destruct args as [|prog [|text rest]]; [reflexivity | reflexivity |].
  unfold arguments. cbn [length].
  destruct (Z.ltb_spec (Z.of_nat (S (S (length rest)))) 1); [lia|].
  change (array_at ((Some <$> prog :: text :: rest) ++ [None]) 1)
    with (Some (Some text)).
  cbn [mbind option_bind].
  replace (Z.to_nat (Z.of_nat (S (S (length rest))) - 2)) with (length rest) by lia.
  cbn [tail]. rewrite <- fold_left_join.
  apply (arguments_loop_run rest [Some prog; Some text] text).
Qed.

Example arguments_three :
  arguments 3 [Some "guid-generate"; Some "seed"; Some "text"; None]%string
  = Some "seed text"%string.
Proof. reflexivity. Qed.

(** A null entry before [argc] ends the arguments; reading past the end of
    the array is undefined. *)
Example arguments_null_entry :
  arguments 4 [Some "guid-generate"; Some "a"; None; Some "b"; None]%string
  = Some "a"%string.
Proof. reflexivity. Qed.

(** ** [main] *)


Lemma string_mem_digits ch : string_mem ch "0123456789" = is_digit ch.
Proof. destruct ch as [[] [] [] [] [] [] [] []]; reflexivity. Qed.

Lemma is_digit_not_space ch : is_digit ch = true → is_space ch = false.
Proof. destruct ch as [[] [] [] [] [] [] [] []]; (reflexivity || discriminate). Qed.

Lemma find_first_of_digits pre d rest :
  string_forallb (λ ch, negb (is_digit ch)) pre = true → is_digit d = true →
  find_first_of "0123456789" (pre ++ String d rest) = Some (String.length pre).
Proof.
  intros Hpre Hd. induction pre as [|c pre IH]; cbn [append find_first_of String.length].
  - rewrite string_mem_digits, Hd. reflexivity.
  - cbn [string_forallb] in Hpre. apply andb_true_iff in Hpre as [Hc Hpre].
    rewrite string_mem_digits. apply negb_true_iff in Hc. rewrite Hc.
    rewrite (IH Hpre). reflexivity.
Qed.

Lemma find_first_of_no_digit s :
  string_forallb (λ ch, negb (is_digit ch)) s = true →
  find_first_of "0123456789" s = None.
Proof.
  induction s as [|c s IH]; cbn [string_forallb find_first_of]; [reflexivity|].
  intros Hs. apply andb_true_iff in Hs as [Hc Hs].
  rewrite string_mem_digits. apply negb_true_iff in Hc. rewrite Hc, (IH Hs). reflexivity.
Qed.

Lemma c_str_from_app pre s : c_str_from (String.length pre) (pre ++ s) = s.
Proof.
  induction pre as [|c pre IH]; cbn [String.length append c_str_from].
  - destruct s; reflexivity.
  - exact IH.
Qed.

Lemma digits_value_app num post acc :
  string_forallb is_digit num = true → starts_with_digit post = false →
  digits_value (num ++ post) acc = digits_value num acc.
Proof.
  intros Hnum Hpost. revert acc.
  induction num as [|c num IH]; intros acc; cbn [append digits_value].
  - destruct post as [|c post]; [reflexivity|].
    cbn [starts_with_digit] in Hpost. cbn [digits_value]. rewrite Hpost. reflexivity.
  - cbn [string_forallb] in Hnum. apply andb_true_iff in Hnum as [Hc Hnum].
    rewrite Hc. apply IH, Hnum.
Qed.

Lemma digits_value_nonneg s acc : 0 <= acc → 0 <= digits_value s acc.
Proof.
  revert acc. induction s as [|c s IH]; intros acc Hacc; cbn [digits_value]; [exact Hacc|].
  destruct (is_digit c) eqn:Hc; [|exact Hacc].
  apply IH. unfold is_digit in Hc. cbv zeta in Hc.
  apply andb_true_iff in Hc as [Hlo _]. apply N.leb_le in Hlo. lia.
Qed.

(** [atol] on a text that starts with a digit: the value of its leading
    digits, where a [long] can hold it. *)
Lemma atol_digits sizeof_long d num post :
  string_forallb is_digit (String d num) = true → starts_with_digit post = false →
  digits_value (String d num) 0 < 2 ^ (sizeof_long * 8 - 1) →
  atol sizeof_long (String d num ++ post) = Some (digits_value (String d num) 0).
Proof.
  intros Hnum Hpost Hmax.
  pose proof (digits_value_nonneg (String d num) 0 ltac:(lia)) as Hpos.
  pose proof (digits_value_app (String d num) post 0 Hnum Hpost) as Happ.
  assert (is_digit d = true) as Hd.
  { cbn [string_forallb] in Hnum. apply andb_true_iff in Hnum as [Hd _]. exact Hd. }
  unfold atol. cbn [append skip_spaces]. rewrite (is_digit_not_space d Hd).
  assert (match String d (num ++ post) with
          | String "-" rest => - digits_value rest 0
          | String "+" rest => digits_value rest 0
          | _ => digits_value (String d (num ++ post)) 0
          end = digits_value (String d (num ++ post)) 0) as ->.
  { clear -Hd. destruct d as [[] [] [] [] [] [] [] []];
      first [discriminate Hd | reflexivity]. }
  cbn [append] in Happ. rewrite Happ.
  destruct (Z.leb_spec (- 2 ^ (sizeof_long * 8 - 1)) (digits_value (String d num) 0)).
  - destruct (Z.ltb_spec (digits_value (String d num) 0) (2 ^ (sizeof_long * 8 - 1)));
      [reflexivity | lia].
  - lia.
Qed.

(** [hay.find(needle) == 0] says that [hay] starts with [needle]. *)
Lemma find_at_0 needle hay :
  match find needle hay with Some O => true | _ => false end = String.prefix needle hay.
Proof.
  destruct hay as [|c hay]; cbn [find].
  - destruct (String.prefix needle ""); reflexivity.
  - destruct (String.prefix needle (String c hay)); [reflexivity|].
    destruct (find needle hay); reflexivity.
Qed.

Lemma prefix_dash_n rest : String.prefix "-n" ("-n" ++ rest) = true.
Proof.
  cbn [append String.prefix].
  destruct (ascii_dec "-" "-") as [_|Hne]; [|congruence].
  destruct (ascii_dec "n" "n") as [_|Hne]; [|congruence].
  destruct rest; reflexivity.
Qed.

Lemma prefix_dash_n_other_first c rest :
  c ≠ "-"%char → String.prefix "-n" (String c rest) = false.
Proof.
  intros Hc. cbn [String.prefix].
  destruct (ascii_dec "-" c) as [Heq|_]; [congruence | reflexivity].
Qed.

Lemma prefix_dash_n_other_second rest :
  String.prefix "n" rest = false → String.prefix "-n" (String "-" rest) = false.
Proof.
  intros Hrest. cbn [String.prefix].
  destruct (ascii_dec "-" "-") as [_|Hne]; [exact Hrest | congruence].
Qed.

Section main_properties.
Variable sizeof_seed_type : Z.
Variable char_is_signed : bool.
Variable sizeof_long : Z.
Context {E : Type} `{RandomEngine E}.
Hypothesis static_assert : 4 <= sizeof_seed_type.

Local Abbreviation generate_guid' := (generate_guid sizeof_seed_type char_is_signed).
Local Abbreviation main' := (main sizeof_seed_type char_is_signed sizeof_long).




Lemma generate_lines_undefined arg w :
  generate_lines sizeof_seed_type char_is_signed INT_MIN arg w = None.
Proof. reflexivity. Qed.

Lemma generate_lines_seeded arg data w :
  generate_guid' (list_ascii_of_string arg) w = Some (data, w) →
  generate_lines sizeof_seed_type char_is_signed 1 arg w
  = Some (mkOutcome 0 (to_string data ++ nl) "", w).
Proof.
  intros Hdata. unfold generate_lines. change (Z.to_nat 1) with 1%nat.
  cbn [output_loop]. change (1 =? INT_MIN) with false. change (0 <=? 1 - 1) with true.
  cbv iota. unfold mbind at 1, M_bind at 1. unfold mbind at 1, M_bind at 1.
  rewrite Hdata. reflexivity.
Qed.

(** [main] once [arguments] has returned [arg]. *)
Ltac main_with Hargs :=
  unfold main; unfold mbind at 1, M_bind at 1; rewrite Hargs;
  unfold of_option at 1; cbv beta iota zeta.

Lemma main_seeded argc argv c rest data w :
  arguments argc argv = Some (String c rest) →
  c ≠ "-"%char → String c rest ≠ "/?"%string →
  generate_guid' (list_ascii_of_string (String c rest)) w = Some (data, w) →
  main' argc argv w = Some (mkOutcome 0 (to_string data ++ nl) "", w).
Proof.
  intros Hargs Hc Hhelp Hdata. main_with Hargs.
  change (String.eqb (String c rest) "") with false. cbv iota.
  rewrite find_at_0, (prefix_dash_n_other_first c rest Hc).
  destruct (String.eqb_spec (String c rest) "--version") as [[= ? _]|_]; [congruence|].
  destruct (String.eqb_spec (String c rest) "-v") as [[= ? _]|_]; [congruence|].
  destruct (String.eqb_spec (String c rest) "--help") as [[= ? _]|_]; [congruence|].
  destruct (String.eqb_spec (String c rest) "-h") as [[= ? _]|_]; [congruence|].
  destruct (String.eqb_spec (String c rest) "/?") as [?|_]; [congruence|].
  cbn [orb front]. unfold mbind at 1, M_bind at 1, of_option at 1.
  destruct (Ascii.eqb_spec c "-"); [congruence|].
  apply generate_lines_seeded, Hdata.
Qed.



(** The argument text [-n], then [pre] without a digit, then the digits
    [String d num], then [post]. *)
Lemma main_count_parsed argc argv pre d num post w :
  arguments argc argv = Some ("-n" ++ pre ++ String d num ++ post)%string →
  string_forallb (λ ch, negb (is_digit ch)) pre = true →
  string_forallb is_digit (String d num) = true →
  starts_with_digit post = false →
  digits_value (String d num) 0 < 2 ^ (sizeof_long * 8 - 1) →
  main' argc argv w
  = generate_lines sizeof_seed_type char_is_signed
      (to_int (digits_value (String d num) 0)) "" w.
Proof.
  intros Hargs Hpre Hnum Hpost Hmax. main_with Hargs.
  change (String.eqb ("-n" ++ pre ++ String d num ++ post) "") with false. cbv iota.
  rewrite find_at_0, prefix_dash_n.
  assert (is_digit d = true) as Hd.
  { cbn [string_forallb] in Hnum. apply andb_true_iff in Hnum as [Hd _]. exact Hd. }
  replace ("-n" ++ pre ++ String d num ++ post)%string
    with (("-n" ++ pre) ++ String d (num ++ post))%string
    by (rewrite string_app_assoc; reflexivity).
  rewrite (find_first_of_digits ("-n" ++ pre) d (num ++ post)) by (exact Hpre || exact Hd).
  rewrite c_str_from_app.
  unfold mbind at 1, M_bind at 1, of_option at 1.
  rewrite (atol_digits sizeof_long d num post Hnum Hpost Hmax : atol _ (String d (num ++ post)) = _).
  reflexivity.
Qed.

Lemma main_count_missing argc argv rest w :
  arguments argc argv = Some ("-n" ++ rest)%string →
  string_forallb (λ ch, negb (is_digit ch)) rest = true →
  main' argc argv w
  = Some (mkOutcome 1 "" ("Invalid option -n, missing number of output lines." ++ nl), w).
Proof.
  intros Hargs Hrest. main_with Hargs.
  change (String.eqb ("-n" ++ rest) "") with false. cbv iota.
  rewrite find_at_0, prefix_dash_n.
  rewrite (find_first_of_no_digit ("-n" ++ rest) Hrest). reflexivity.
Qed.

Lemma main_invalid argc argv rest w :
  arguments argc argv = Some (String "-" rest) →
  String.prefix "n" rest = false →
  String "-" rest ∉ ["--version"; "-v"; "--help"; "-h"]%string →
  main' argc argv w
  = Some (mkOutcome 1 "" ("Invalid option '" ++ String "-" rest ++ "', try --help" ++ nl), w).
Proof.
  intros Hargs Hn Hother. main_with Hargs.
  change (String.eqb (String "-" rest) "") with false. cbv iota.
  rewrite find_at_0, (prefix_dash_n_other_second rest Hn).
  rewrite !not_elem_of_cons in Hother.
  destruct Hother as (Hv1 & Hv2 & Hh1 & Hh2 & _).
  destruct (String.eqb_spec (String "-" rest) "--version"); [congruence|].
  destruct (String.eqb_spec (String "-" rest) "-v"); [congruence|].
  destruct (String.eqb_spec (String "-" rest) "--help"); [congruence|].
  destruct (String.eqb_spec (String "-" rest) "-h"); [congruence|].
  destruct (String.eqb_spec (String "-" rest) "/?") as [[=]|_].
  cbn [orb front]. unfold mbind at 1, M_bind at 1, of_option at 1.
  change (Ascii.eqb "-" "-") with true. cbv iota.
  unfold mret, M_ret. do 3 f_equal.
Qed.

Lemma main_information argc argv arg w :
  arguments argc argv = Some arg →
  (arg ∈ ["--version"; "-v"]%string →
   main' argc argv w
   = Some (mkOutcome 0 ("guid-generate version 1.0.0." ++ nl) "", w))
  ∧ (arg ∈ ["--help"; "-h"; "/?"]%string →
     ∃ text,
       main' argc argv w = Some (mkOutcome 0 text "", w)
       ∧ String.prefix "Usage: guid-generate " text = true
       ∧ is_Some (find "binary is 0x271d8a39." text)).
Proof.
  intros Hargs. split.
  - rewrite !elem_of_cons, elem_of_nil.
    intros [->|[->|[]]]; main_with Hargs; reflexivity.
  - rewrite !elem_of_cons, elem_of_nil.
    intros [->|[->|[->|[]]]]; main_with Hargs;
      (eexists; split_and!; [reflexivity | reflexivity | vm_compute; eexists; reflexivity]).
Qed.

End main_properties.

(** X11: when the joined arguments do not start with a dash and are not
    [/?], [main] writes one line, the text of the bytes [generate_guid]
    derives from the joined arguments, writes nothing to [cerr], returns 0
    and leaves the environment alone: the same arguments always give the same
    line. *)
Theorem main_seed_text (sizeof_seed_type : Z) (char_is_signed : bool) (sizeof_long : Z)
  {E : Type} `{RandomEngine E} (argc : Z) (argv : list (option string))
  (c : ascii) (rest : string) :
  4 <= sizeof_seed_type →
  arguments argc argv = Some (String c rest) →
  c ≠ "-"%char → String c rest ≠ "/?"%string →
  ∃ data,
    guid_data data
    ∧ (∀ w, generate_guid sizeof_seed_type char_is_signed
              (list_ascii_of_string (String c rest)) w = Some (data, w))
    ∧ (∀ w, main sizeof_seed_type char_is_signed sizeof_long argc argv w
            = Some (mkOutcome 0 (to_string data ++ nl) "", w)).
Proof.
  intros Hsz Hargs Hc Hhelp.
  assert (∃ data, guid_data data ∧
            ∀ w, generate_guid sizeof_seed_type char_is_signed
                   (list_ascii_of_string (String c rest)) w = Some (data, w))
    as (data & Hguid & Hdata).
  { eexists. split; [|intros w; apply (generate_guid_nonempty _ Hsz); discriminate].
    apply interleave_guid_data. }
  exists data. split_and!; [exact Hguid | exact Hdata |].
  intros w. apply (main_seeded _ _ _ argc argv c rest data w Hargs Hc Hhelp), Hdata.
Qed.

Lemma main_seed_text_witness :
  ∃ data,
    guid_data data
    ∧ (∀ w, generate_guid 8 true (E := mt19937.state)
              (list_ascii_of_string (String "s" "eed text")) w = Some (data, w))
    ∧ (∀ w, main 8 true 8 (E := mt19937.state) 3
              [Some "guid-generate"; Some "seed"; Some "text"; None]%string w
            = Some (mkOutcome 0 (to_string data ++ nl) "", w)).
Proof.
  apply (main_seed_text 8 true 8 3
           [Some "guid-generate"; Some "seed"; Some "text"; None]%string "s" "eed text");
    [lia | reflexivity | discriminate | discriminate].
Defined.





(** X14: under the same reading of the arguments, a number that converts to
    the smallest [int] (2147483648 where [long] has 64 bits) makes the first
    decrement of the line counter overflow: the behaviour of [main] is
    undefined. *)
Theorem main_line_count_overflow (sizeof_seed_type : Z) (char_is_signed : bool)
  (sizeof_long : Z) {E : Type} `{RandomEngine E} (argc : Z) (argv : list (option string))
  (pre : string) (d : ascii) (num post : string) (w : World) :
  arguments argc argv = Some ("-n" ++ pre ++ String d num ++ post)%string →
  string_forallb (λ ch, negb (is_digit ch)) pre = true →
  string_forallb is_digit (String d num) = true →
  starts_with_digit post = false →
  digits_value (String d num) 0 < 2 ^ (sizeof_long * 8 - 1) →
  to_int (digits_value (String d num) 0) = INT_MIN →
  main sizeof_seed_type char_is_signed sizeof_long argc argv w = None.
Proof.
  intros Hargs Hpre Hnum Hpost Hmax Hmin.
  rewrite (main_count_parsed _ _ _ argc argv pre d num post w Hargs Hpre Hnum Hpost Hmax).
  rewrite Hmin. reflexivity.
Qed.

Lemma main_line_count_overflow_witness :
  main 8 true 8 (E := mt19937.state) 2
    [Some "guid-generate"; Some "-n2147483648"; None]%string (mkWorld (fun _ => 0) 0)
  = None.
Proof.
  apply (main_line_count_overflow 8 true 8 2
           [Some "guid-generate"; Some "-n2147483648"; None]%string
           "" "2" "147483648" "" (mkWorld (fun _ => 0) 0));
    [reflexivity | reflexivity | reflexivity | reflexivity
     | vm_compute; reflexivity | vm_compute; reflexivity].
Defined.

(** X15: when the joined arguments start with [-n] and hold no digit,
    [main] writes the complaint about the missing number to [cerr], nothing
    to [cout], returns 1 and makes no draw. *)
Theorem main_line_count_missing (sizeof_seed_type : Z) (char_is_signed : bool)
  (sizeof_long : Z) {E : Type} `{RandomEngine E} (argc : Z) (argv : list (option string))
  (rest : string) (w : World) :
  arguments argc argv = Some ("-n" ++ rest)%string →
  string_forallb (λ ch, negb (is_digit ch)) rest = true →
  main sizeof_seed_type char_is_signed sizeof_long argc argv w
  = Some (mkOutcome 1 "" ("Invalid option -n, missing number of output lines." ++ nl), w).
Proof.
  intros Hargs Hrest.
  apply (main_count_missing _ _ _ argc argv rest w Hargs Hrest).
Qed.

Lemma main_line_count_missing_witness :
  main 8 true 8 (E := mt19937.state) 3
    [Some "guid-generate"; Some "-nothing"; Some "here"; None]%string
    (mkWorld (fun _ => 0) 0)
  = Some (mkOutcome 1 "" ("Invalid option -n, missing number of output lines." ++ nl),
          mkWorld (fun _ => 0) 0).
Proof.
  apply (main_line_count_missing 8 true 8 3
           [Some "guid-generate"; Some "-nothing"; Some "here"; None]%string
           "othing here" (mkWorld (fun _ => 0) 0)); reflexivity.
Defined.

(** X16: when the joined arguments start with a dash, not with [-n], and
    are none of [--version], [-v], [--help] and [-h], [main] names them as an
    invalid option on [cerr], writes nothing to [cout], returns 1 and makes
    no draw. *)
Theorem main_invalid_option (sizeof_seed_type : Z) (char_is_signed : bool)
  (sizeof_long : Z) {E : Type} `{RandomEngine E} (argc : Z) (argv : list (option string))
  (rest : string) (w : World) :
  arguments argc argv = Some (String "-" rest) →
  String.prefix "n" rest = false →
  String "-" rest ∉ ["--version"; "-v"; "--help"; "-h"]%string →
  main sizeof_seed_type char_is_signed sizeof_long argc argv w
  = Some (mkOutcome 1 ""
            ("Invalid option '" ++ String "-" rest ++ "', try --help" ++ nl), w).
Proof.
  intros Hargs Hn Hother.
  apply (main_invalid _ _ _ argc argv rest w Hargs Hn Hother).
Qed.

Lemma main_invalid_option_witness :
  main 8 true 8 (E := mt19937.state) 3
    [Some "guid-generate"; Some "--seed"; Some "abc"; None]%string (mkWorld (fun _ => 0) 0)
  = Some (mkOutcome 1 ""
            ("Invalid option '" ++ String "-" "-seed abc" ++ "', try --help" ++ nl),
          mkWorld (fun _ => 0) 0).
Proof.
  apply (main_invalid_option 8 true 8 3
           [Some "guid-generate"; Some "--seed"; Some "abc"; None]%string
           "-seed abc" (mkWorld (fun _ => 0) 0)); [reflexivity | reflexivity |].
  rewrite !not_elem_of_cons. split_and!; try discriminate. apply not_elem_of_nil.
Defined.

(** X17: for the joined arguments [--version] or [-v], [main] writes the
    name and version line; for [--help], [-h] or [/?] it writes the usage
    text, which states the compiled seed offset in lower-case hexadecimal.
    In both cases it returns 0, writes nothing to [cerr], generates nothing
    and makes no draw. *)
Theorem main_information_options (sizeof_seed_type : Z) (char_is_signed : bool)
  (sizeof_long : Z) {E : Type} `{RandomEngine E} (argc : Z) (argv : list (option string))
  (arg : string) (w : World) :
  arguments argc argv = Some arg →
  (arg ∈ ["--version"; "-v"]%string →
   main sizeof_seed_type char_is_signed sizeof_long argc argv w
   = Some (mkOutcome 0 ("guid-generate version 1.0.0." ++ nl) "", w))
  ∧ (arg ∈ ["--help"; "-h"; "/?"]%string →
     ∃ text,
       main sizeof_seed_type char_is_signed sizeof_long argc argv w
       = Some (mkOutcome 0 text "", w)
       ∧ String.prefix "Usage: guid-generate " text = true
       ∧ is_Some (find "binary is 0x271d8a39." text)).
Proof. intros Hargs. apply main_information, Hargs. Qed.

Lemma main_information_options_witness :
  ("/?"%string ∈ ["--version"; "-v"]%string →
   main 8 true 8 (E := mt19937.state) 2 [Some "guid-generate"; Some "/?"; None]%string
     (mkWorld (fun _ => 0) 0)
   = Some (mkOutcome 0 ("guid-generate version 1.0.0." ++ nl) "", mkWorld (fun _ => 0) 0))
  ∧ ("/?"%string ∈ ["--help"; "-h"; "/?"]%string →
     ∃ text,
       main 8 true 8 (E := mt19937.state) 2 [Some "guid-generate"; Some "/?"; None]%string
         (mkWorld (fun _ => 0) 0)
       = Some (mkOutcome 0 text "", mkWorld (fun _ => 0) 0)
       ∧ String.prefix "Usage: guid-generate " text = true
       ∧ is_Some (find "binary is 0x271d8a39." text)).
Proof.
  apply (main_information_options 8 true 8 2
           [Some "guid-generate"; Some "/?"; None]%string "/?" (mkWorld (fun _ => 0) 0)).
  reflexivity.
Defined.

(** ** [generate_guid] with the failure exit of [std::random_device] *)

Section generate_guid_throwing_properties.
Variable sizeof_seed_type : Z.
Variable char_is_signed : bool.
Context {E : Type} `{RandomEngine E}.
Hypothesis static_assert : 4 <= sizeof_seed_type.

Local Abbreviation mkseed_x := (mkseed_throwing sizeof_seed_type char_is_signed).
Local Abbreviation generate_x := (generate_guid_throwing sizeof_seed_type char_is_signed).

Lemma mkseed_throwing_nonempty seed ofs rot dev :
  seed ≠ [] →
  mkseed_x seed ofs rot dev =
  Returned (expand_fold (seed_bits sizeof_seed_type)
              (fun b => seed_type sizeof_seed_type (char_value char_is_signed b))
              seed (seed_type sizeof_seed_type ofs) rot) dev.
Proof.
  intros Hne. destruct seed as [|b seed]; [congruence|].
  unfold mkseed_throwing, or_undefined.
  rewrite (accumulate_value _ _ static_assert). reflexivity.
Qed.

Lemma mkseed_throwing_empty ofs rot dev :
  mkseed_x [] ofs rot dev =
  match dev_stream dev (dev_reads dev) with
  | Some v =>
      Returned (rotate_left (seed_bits sizeof_seed_type) (wrap 32 v) rot)
        (mkDevice (dev_stream dev) (S (dev_reads dev)))
  | None => Thrown
  end.
Proof.
  pose proof (seed_bits_ge_32 _ static_assert) as Hb.
  unfold mkseed_throwing, mbind, X_bind, random_device_throwing.
  destruct (dev_stream dev (dev_reads dev)) as [v|]; [|reflexivity].
  unfold or_undefined. rewrite (rotl_value _ static_assert). unfold seed_type.
  rewrite (wrap_small (seed_bits sizeof_seed_type) (wrap 32 v)); [reflexivity|].
  pose proof (wrap_in_range 32 v ltac:(lia)) as [Hlo Hhi].
  split; [exact Hlo|]. eapply Z.lt_le_trans; [exact Hhi|].
  apply Z.pow_le_mono_r; lia.
Qed.

(** A run of [generate_guid] in terms of its four calls of [mkseed]: the
    first exception or undefined step ends it. *)
Lemma generate_guid_throwing_steps seed dev :
  generate_x seed dev =
  match mkseed_x seed SEED_OFFSET 0 dev with
  | Returned s0 d1 =>
      match mkseed_x seed (nth_draw 0 (construct s0)) 7 d1 with
      | Returned s1 d2 =>
          match mkseed_x seed (nth_draw 0 (construct s1)) 11 d2 with
          | Returned s2 d3 =>
              match mkseed_x seed (nth_draw 0 (construct s2)) 13 d3 with
              | Returned s3 d4 =>
                  Returned (interleave (advance 1 (construct s0))
                              (advance 1 (construct s1))
                              (advance 1 (construct s2)) (construct s3)) d4
              | Thrown => Thrown
              | Undefined => Undefined
              end
          | Thrown => Thrown
          | Undefined => Undefined
          end
      | Thrown => Thrown
      | Undefined => Undefined
      end
  | Thrown => Thrown
  | Undefined => Undefined
  end.
Proof.
  unfold nth_draw. cbn [advance].
  unfold generate_guid_throwing, mbind, X_bind.
  destruct (mkseed_x seed SEED_OFFSET 0 dev) as [s0 d1| |]; [simpl|reflexivity ..].
  destruct (mkseed_x seed (invoke (construct s0)).1 7 d1) as [s1 d2| |];
    [|reflexivity ..].
  destruct (mkseed_x seed (invoke (construct s1)).1 11 d2) as [s2 d3| |];
    [|reflexivity ..].
  destruct (mkseed_x seed (invoke (construct s2)).1 13 d3) as [s3 d4| |];
    reflexivity.
Qed.

Lemma generate_guid_throwing_nonempty seed dev :
  seed ≠ [] → ∃ data, guid_data data ∧ generate_x seed dev = Returned data dev.
Proof.
  intros Hne. rewrite generate_guid_throwing_steps.
  rewrite !mkseed_throwing_nonempty by exact Hne.
  eexists. split; [apply interleave_guid_data | reflexivity].
Qed.

Lemma generate_guid_throwing_empty dev :
  generate_x [] dev =
  match dev_stream dev (dev_reads dev), dev_stream dev (1 + dev_reads dev),
        dev_stream dev (2 + dev_reads dev), dev_stream dev (3 + dev_reads dev) with
  | Some v0, Some v1, Some v2, Some v3 =>
      Returned
        (interleave
           (advance 1 (construct (rotate_left (seed_bits sizeof_seed_type) (wrap 32 v0) 0)))
           (advance 1 (construct (rotate_left (seed_bits sizeof_seed_type) (wrap 32 v1) 7)))
           (advance 1 (construct (rotate_left (seed_bits sizeof_seed_type) (wrap 32 v2) 11)))
           (construct (rotate_left (seed_bits sizeof_seed_type) (wrap 32 v3) 13)))
        (mkDevice (dev_stream dev) (4 + dev_reads dev))
  | _, _, _, _ => Thrown
  end.
Proof.
  rewrite generate_guid_throwing_steps. cbn [Nat.add].
  rewrite mkseed_throwing_empty.
  destruct (dev_stream dev (dev_reads dev)) as [v0|]; [|reflexivity].
  rewrite mkseed_throwing_empty. cbn [dev_stream dev_reads].
  destruct (dev_stream dev (S (dev_reads dev))) as [v1|]; [|reflexivity].
  rewrite mkseed_throwing_empty. cbn [dev_stream dev_reads].
  destruct (dev_stream dev (S (S (dev_reads dev)))) as [v2|]; [|reflexivity].
  rewrite mkseed_throwing_empty. cbn [dev_stream dev_reads].
  destruct (dev_stream dev (S (S (S (dev_reads dev))))) as [v3|]; reflexivity.
Qed.

(** Where no draw throws, the two descriptions of [generate_guid] agree. *)
Lemma generate_guid_throwing_device_of seed w :
  generate_x seed (device_of w) =
  match generate_guid sizeof_seed_type char_is_signed seed w with
  | Some (data, w') => Returned data (device_of w')
  | None => Undefined
  end.
Proof.
  destruct seed as [|b seed].
  - rewrite generate_guid_throwing_empty. cbn [device_of dev_stream dev_reads].
    erewrite generate_guid_run;
      [| rewrite (mkseed_empty _ _ static_assert); reflexivity ..].
    reflexivity.
  - rewrite generate_guid_throwing_steps.
    rewrite !mkseed_throwing_nonempty by discriminate.
    erewrite generate_guid_run;
      [| apply (mkseed_nonempty _ _ static_assert); discriminate ..].
    reflexivity.
Qed.

End generate_guid_throwing_properties.

(** C8, as amended: [generate_guid] never runs into an undefined shift or
    array access.  On a non-empty seed it returns sixteen bytes and leaves
    the device alone.  On the empty seed it returns sixteen bytes if the four
    draws it makes from [std::random_device] succeed, and lets the exception
    out if one of them throws.  [to_string] returns a string of 36
    characters for every sixteen bytes. *)
Theorem generate_guid_fails_only_by_throwing (sizeof_seed_type : Z)
  (char_is_signed : bool) {E : Type} `{RandomEngine E}
  (seed : list ascii) (dev : Device) :
  4 <= sizeof_seed_type →
  generate_guid_throwing sizeof_seed_type char_is_signed seed dev ≠ Undefined
  ∧ (seed ≠ [] →
     ∃ data, guid_data data
       ∧ generate_guid_throwing sizeof_seed_type char_is_signed seed dev
         = Returned data dev)
  ∧ (seed = [] →
     (∀ k, (k < 4)%nat → is_Some (dev_stream dev (k + dev_reads dev))) →
     ∃ data, guid_data data
       ∧ generate_guid_throwing sizeof_seed_type char_is_signed seed dev
         = Returned data (mkDevice (dev_stream dev) (4 + dev_reads dev)))
  ∧ (seed = [] →
     (∃ k, (k < 4)%nat ∧ dev_stream dev (k + dev_reads dev) = None) →
     generate_guid_throwing sizeof_seed_type char_is_signed seed dev = Thrown)
  ∧ (∀ data, guid_data data → String.length (to_string data) = 36%nat).
Proof.
  intros Hsz. split_and!.
  - destruct seed as [|b seed].
    + rewrite (generate_guid_throwing_empty _ _ Hsz). cbn [Nat.add].
      destruct (dev_stream dev (dev_reads dev)); [|discriminate].
      destruct (dev_stream dev (S (dev_reads dev))); [|discriminate].
      destruct (dev_stream dev (S (S (dev_reads dev)))); [|discriminate].
      destruct (dev_stream dev (S (S (S (dev_reads dev))))); discriminate.
    + destruct (generate_guid_throwing_nonempty _ char_is_signed Hsz (b :: seed) dev)
        as (data & _ & ->); discriminate.
  - intros Hne. apply (generate_guid_throwing_nonempty _ _ Hsz), Hne.
  - intros -> Hdraws. rewrite (generate_guid_throwing_empty _ _ Hsz).
    destruct (Hdraws 0%nat ltac:(lia)) as [v0 H0].
    destruct (Hdraws 1%nat ltac:(lia)) as [v1 H1].
    destruct (Hdraws 2%nat ltac:(lia)) as [v2 H2].
    destruct (Hdraws 3%nat ltac:(lia)) as [v3 H3].
    cbn [Nat.add] in *. rewrite H0, H1, H2, H3.
    eexists. split; [apply interleave_guid_data | reflexivity].
  - intros -> (k & Hk & Hnone). rewrite (generate_guid_throwing_empty _ _ Hsz).
    destruct k as [|[|[|[|k]]]]; [| | | |lia]; cbn [Nat.add] in *; rewrite Hnone;
      repeat match goal with
             | |- context [match dev_stream dev ?i with _ => _ end] =>
                 destruct (dev_stream dev i)
             end; reflexivity.
  - intros data [Hlen Hbytes].
    rewrite (to_string_eq_format data Hbytes). apply format_length, Hlen.
Qed.

Lemma generate_guid_fails_only_by_throwing_witness :
  generate_guid_throwing 8 true (E := mt19937.state) []
    (mkDevice (λ k, if (k <? 2)%nat then Some 7 else None) 0) ≠ Undefined
  ∧ (@nil ascii ≠ [] →
     ∃ data, guid_data data
       ∧ generate_guid_throwing 8 true (E := mt19937.state) []
           (mkDevice (λ k, if (k <? 2)%nat then Some 7 else None) 0)
         = Returned data (mkDevice (λ k, if (k <? 2)%nat then Some 7 else None) 0))
  ∧ (@nil ascii = [] →
     (∀ k, (k < 4)%nat →
        is_Some (dev_stream (mkDevice (λ k, if (k <? 2)%nat then Some 7 else None) 0)
                   (k + dev_reads (mkDevice (λ k, if (k <? 2)%nat then Some 7 else None) 0)))) →
     ∃ data, guid_data data
       ∧ generate_guid_throwing 8 true (E := mt19937.state) []
           (mkDevice (λ k, if (k <? 2)%nat then Some 7 else None) 0)
         = Returned data
             (mkDevice
                (dev_stream (mkDevice (λ k, if (k <? 2)%nat then Some 7 else None) 0))
                (4 + dev_reads (mkDevice (λ k, if (k <? 2)%nat then Some 7 else None) 0))))
  ∧ (@nil ascii = [] →
     (∃ k, (k < 4)%nat
        ∧ dev_stream (mkDevice (λ k, if (k <? 2)%nat then Some 7 else None) 0)
            (k + dev_reads (mkDevice (λ k, if (k <? 2)%nat then Some 7 else None) 0))
          = None) →
     generate_guid_throwing 8 true (E := mt19937.state) []
       (mkDevice (λ k, if (k <? 2)%nat then Some 7 else None) 0) = Thrown)
  ∧ (∀ data, guid_data data → String.length (to_string data) = 36%nat).
Proof.
  apply (generate_guid_fails_only_by_throwing 8 true []
           (mkDevice (λ k, if (k <? 2)%nat then Some 7 else None) 0)).
  lia.
Defined.

(** C8 as the specification states it, with no failure at all, fails: on
    the empty seed, a [std::random_device] that throws makes [generate_guid]
    end by that exception instead of returning bytes. *)
Lemma generate_guid_throws_on_empty_seed :
  ¬ (∀ (sizeof_seed_type : Z) (char_is_signed : bool) (seed : list ascii)
       (dev : Device),
       4 <= sizeof_seed_type →
       ∃ data dev',
         generate_guid_throwing sizeof_seed_type char_is_signed
           (E := mt19937.state) seed dev = Returned data dev').
Proof.
  intros Hall.
  destruct (Hall 4 true [] (mkDevice (λ _, None) 0) ltac:(lia)) as (data & dev' & Hrun).
  rewrite (generate_guid_throwing_empty 4 true ltac:(lia)) in Hrun.
  cbn [dev_stream dev_reads] in Hrun. discriminate Hrun.
Qed.
